(** * temperature_to_midi: from surface-temperature readings to MIDI notes

    A shallow embedding of [temperature_to_midi.py] and the properties of
    its numeric pipeline: reading the table, block averaging, threshold
    normalisation and bucketing, and the mode dispatch.

    Python numbers are kept behind the interface [Number], so that every
    function is written once, the way the source writes it, and can be run
    - on [binary64], the IEEE 754 doubles a Python [float] is, and
    - on [Qc], exact rationals, the arithmetic the formulas are read in. *)

From Stdlib Require Import ZArith QArith Qcanon Floats Ascii Lia.
From stdpp Require Import base option list gmap strings.

Local Open Scope Z_scope.

(** ** Exceptions and results *)

(** The exceptions a call can end with; none of them is caught anywhere in
    the source, so each one ends the call. [OSError] stands for whatever
    subclass of it a failed [open] raises ([FileNotFoundError],
    [PermissionError], [IsADirectoryError], ...); [OtherError] carries the
    class name of an exception of the MIDI library, [struct.error] for
    one. *)
Inductive exn : Set :=
  | ValueError
  | ZeroDivisionError
  | TypeError
  | OverflowError
  | OSError
  | OtherError (class_name : string).

Inductive result (A : Type) : Type :=
  | Ok (a : A)
  | Raise (e : exn).
Arguments Ok {A} a.
Arguments Raise {A} e.

#[global] Instance result_ret : MRet result := @Ok.
#[global] Instance result_bind : MBind result := fun A B f m =>
  match m with
  | Ok a => f a
  | Raise e => Raise e
  end.

(** ** Numbers *)

(** What the pipeline asks of its readings: the four operations, the two
    comparisons it uses ([<=] in [convert_sequence], [<] inside [max] and
    [min]) and the conversion Python applies to an [int] operand that meets
    a reading, with the test whether that conversion is possible at all. *)
Class Number (T : Type) : Type := {
  num_of_int : Z -> T;
  num_int_fits : Z -> bool;
  num_add : T -> T -> T;
  num_sub : T -> T -> T;
  num_mul : T -> T -> T;
  num_div : T -> T -> T;
  num_le : T -> T -> bool;
  num_lt : T -> T -> bool
}.

(** *** Exact rationals *)

#[global] Instance exact : Number Qc := {|
  num_of_int := Qc_of_Z;
  num_int_fits := fun _ => true;
  num_add := Qcplus;
  num_sub := Qcminus;
  num_mul := Qcmult;
  num_div := Qcdiv;
  num_le := fun x y => bool_decide (x <= y)%Qc;
  num_lt := fun x y => bool_decide (x < y)%Qc
|}.

(** *** IEEE 754 doubles *)

(** [float(n)] for a Python [int]: the nearest double, ties to even. Up to
    62 bits the primitive conversion rounds by itself; above, the 62 leading
    bits are kept, the bits cut off are folded into a sticky last bit, and
    the exponent is put back. An [int] whose nearest double would be
    [2^1024] or more comes out as an infinity: that is the case in which
    CPython raises [OverflowError] instead, told by [float_fits]. *)
Definition float_of_nonneg (a : Z) : float :=
  if a <? 2 ^ 62 then PrimFloat.of_uint63 (Uint63.of_Z a)
  else
    let k := Z.log2 a - 61 in
    let lead := Z.shiftr a k in
    let sticky := if Z.land a (Z.ones k) =? 0 then 0 else 1 in
    Z.ldexp (PrimFloat.of_uint63 (Uint63.of_Z (Z.lor lead sticky))) k.

Definition float_of_int (z : Z) : float :=
  if z <? 0 then PrimFloat.opp (float_of_nonneg (- z)) else float_of_nonneg z.

(** Whether [float(n)] exists: CPython raises [OverflowError] exactly when
    the rounded value leaves the range of the doubles. *)
Definition float_fits (z : Z) : bool := negb (PrimFloat.is_infinity (float_of_int z)).

#[global] Instance binary64 : Number float := {|
  num_of_int := float_of_int;
  num_int_fits := float_fits;
  num_add := PrimFloat.add;
  num_sub := PrimFloat.sub;
  num_mul := PrimFloat.mul;
  num_div := PrimFloat.div;
  num_le := PrimFloat.leb;
  num_lt := PrimFloat.ltb
|}.

(** ** The Python builtins the source calls *)

Section Builtins.
Context {T : Type} `{Number T}.

(** [len(l)] *)
Definition py_len {A} (l : list A) : Z := Z.of_nat (length l).

(** [sum(l)]: accumulation from the integer 0, left to right. (CPython
    3.12 adds a compensation term to this loop for floats; the term is
    zero whenever the partial sums are exact, as they are in every
    evaluation below.) *)
Definition py_sum (l : list T) : T := fold_left num_add l (num_of_int 0).

(** [max(l)]: the first element is the candidate, a later one replaces it
    when it is strictly greater; [ValueError] on an empty list. *)
Definition py_max (l : list T) : result T :=
  match l with
  | [] => Raise ValueError
  | x :: rest => Ok (fold_left (fun m y => if num_lt m y then y else m) rest x)
  end.

(** [min(l)], with [<] the other way round. *)
Definition py_min (l : list T) : result T :=
  match l with
  | [] => Raise ValueError
  | x :: rest => Ok (fold_left (fun m y => if num_lt y m then y else m) rest x)
  end.

(** The conversion of an [int] operand that meets a reading:
    [OverflowError] when the [int] is too large. *)
Definition py_float_of_int (n : Z) : result T :=
  if num_int_fits n then Ok (num_of_int n) else Raise OverflowError.

(** [x / n] for a reading [x] and an [int] n: [n] is converted first, then
    [ZeroDivisionError] is raised when the divisor is 0 (the converted
    divisor is zero exactly when [n] is), then the quotient is taken. *)
Definition py_truediv_int (x : T) (n : Z) : result T :=
  d ← py_float_of_int n;
  if n =? 0 then Raise ZeroDivisionError else Ok (num_div x d).

(** [x / len(l)]: the same division where the [int] is the length of a
    list. A length is below [2^63] in CPython, far inside the range of the
    doubles, so its conversion raises nothing. *)
Definition py_truediv_len (x : T) (n : Z) : result T :=
  if n =? 0 then Raise ZeroDivisionError
  else Ok (num_div x (num_of_int n)).

(** [n * x] for an [int] n and a reading [x]. *)
Definition py_int_mul (n : Z) (x : T) : result T :=
  f ← py_float_of_int n; Ok (num_mul f x).
End Builtins.

(** [a % b] on [int]: the remainder takes the sign of the divisor, as
    [Z.modulo] does; [ZeroDivisionError] when [b] is 0. *)
Definition py_mod (a b : Z) : result Z :=
  if b =? 0 then Raise ZeroDivisionError else Ok (a mod b).

(** [range(lo, hi)] *)
Definition py_range (lo hi : Z) : list Z := seqZ lo (hi - lo).

(** [for n, x in enumerate(l, start): st = body(st, n, x)], stopping at the
    first exception. *)
Fixpoint for_enumerate {A S : Type} (body : S -> Z -> A -> result S)
    (start : Z) (l : list A) (st : S) : result S :=
  match l with
  | [] => Ok st
  | x :: rest => st' ← body st start x; for_enumerate body (start + 1) rest st'
  end.

(** [for x in l: st = body(st, x)] *)
Fixpoint for_each {A S : Type} (body : S -> A -> result S)
    (l : list A) (st : S) : result S :=
  match l with
  | [] => Ok st
  | x :: rest => st' ← body st x; for_each body rest st'
  end.

(** ** The numeric pipeline *)

Section Pipeline.
Context {T : Type} `{Number T}.

(** [get_list_average]: [sum(l) / len(l)]. *)
Definition get_list_average (list_to_average : list T) : result T :=
  py_truediv_len (py_sum list_to_average) (py_len list_to_average).

(** One turn of the loop of [step_average]; the state is
    [(stepped_sequence, step_sequence)]. The remainder is taken before
    the test against 0, as [and] evaluates its left operand first. *)
Definition step_average_body (step : Z) (st : list T * list T)
    (sequence_number : Z) (sequence_item : T) : result (list T * list T) :=
  let '(stepped_sequence, step_sequence) := st in
  r ← py_mod sequence_number step;
  if (r =? 0) && negb (sequence_number =? 0) then
    average ← get_list_average step_sequence;
    Ok (stepped_sequence ++ [average], [sequence_item])
  else
    Ok (stepped_sequence, step_sequence ++ [sequence_item]).

Definition step_average (sequence : list T) (step : Z) : result (list T) :=
  st ← for_enumerate (step_average_body step) 0 sequence ([], []);
  Ok st.1.

(** The inner loop of [convert_sequence]: the first increment that is
    [>=] the temperature gives the note, and [break] leaves the loop. *)
Fixpoint scan_increments (t : T) (increments : list T) (num : Z)
    (midi_note_min : Z) : option Z :=
  match increments with
  | [] => None
  | i :: rest =>
      if num_le t i then Some (num + midi_note_min)
      else scan_increments t rest (num + 1) midi_note_min
  end.

Definition convert_sequence (temperatures increments : list T)
    (midi_note_min : Z) : list Z :=
  fold_left
    (fun sequence t =>
       match scan_increments t increments 0 midi_note_min with
       | Some note => sequence ++ [note]
       | None => sequence
       end)
    temperatures [].

(** [midi_normalization]; [min(csv_values)] is evaluated again in every
    turn of the loop, as in the source. *)
Definition midi_normalization (csv_values : list T)
    (midi_note_min midi_note_max : Z) : result (list T) :=
  mx ← py_max csv_values;
  mn ← py_min csv_values;
  let the_range := num_sub mx mn in
  let total_midi_notes := midi_note_max - midi_note_min in
  increment ← py_truediv_int the_range total_midi_notes;
  for_each
    (fun increments i =>
       m ← py_min csv_values;
       x ← py_int_mul i increment;
       Ok (increments ++ [num_add m x]))
    (py_range midi_note_min midi_note_max) [].
End Pipeline.

(** ** Files *)

(** One note of the written track, as [addNote] receives it. *)
Record note : Set := {
  note_track : Z;
  note_channel : Z;
  note_pitch : Z;
  note_time : Z;
  note_duration : Z;
  note_volume : Z
}.

(** The content handed to [MIDIFile.writeFile]: the tempo events
    [(track, time, tempo)] and the notes, in the order they were added. *)
Record midi_file : Set := {
  midi_tempo : list (Z * Z * Z);
  midi_notes : list note
}.

(** What the program sees of the file system: the tables [csv.reader]
    yields for the paths that can be opened and read as text, row by row
    and cell by cell, and the content of the MIDI files. A path outside
    [tables] is one that [open] refuses. The lines printed to the console
    are not part of the model. *)
Record world : Type := {
  tables : gmap string (list (list string));
  written : gmap string midi_file
}.

(** A call that reads or writes files: it returns or raises, and leaves a
    world behind in both cases. *)
Definition io (A : Type) : Type := world -> result A * world.

#[global] Instance io_ret : MRet io := fun A a w => (Ok a, w).
#[global] Instance io_bind : MBind io := fun A B f m w =>
  match m w with
  | (Ok a, w') => f a w'
  | (Raise e, w') => (Raise e, w')
  end.

Definition io_of_result {A} (r : result A) : io A := fun w => (r, w).

(** [with open(file_name, newline='') as f: csv.reader(f, ...)]; a path
    that cannot be opened raises [OSError], in one of its subclasses. *)
Definition open_table (file_name : string) : io (list (list string)) := fun w =>
  match tables w !! file_name with
  | Some rows => (Ok rows, w)
  | None => (Raise OSError, w)
  end.

(** One way the MIDI library and the file system can behave, to run the
    pipelines on: the track is encoded and stored whole, and nothing is
    raised. *)
Definition store_track (file_name : string) (music : midi_file) : io unit := fun w =>
  (Ok tt, {| tables := tables w; written := <[file_name := music]> (written w) |}).

(** ** Reading and writing *)

(** The marker of a missing value in the table. *)
Definition missing : string := "***".

Section Sequencer.
Context {T : Type} `{Number T}.

(** [float(s)] on a cell of the table, [ValueError] when the cell is not
    a number. *)
Variable float_of_str : string -> result T.

(** What the MIDI library and [open(file_name, "wb")] make of a track: the
    calls [MIDIFile(1)], [addTempo], [addNote] and [writeFile] of
    [create_midi], with the events in the order they are added. The
    library is not part of the source: it can raise (on a tempo of 0, on a
    pitch it cannot encode, on a file it cannot open) and it decides what
    is left on disk. *)
Variable write_track : string -> midi_file -> io unit.

(** The loop of [read_history] over the cells of one row. *)
Definition read_row_body (temperatures : list T) (column_number : Z)
    (column : string) : result (list T) :=
  if (1 <=? column_number) && (column_number <? 14) then
    if negb (String.eqb column missing) then
      x ← float_of_str column;
      Ok (temperatures ++ [x])
    else Ok temperatures
  else Ok temperatures.

(** The loop of [read_history] over the rows. *)
Definition read_rows_body (temperatures : list T) (row_number : Z)
    (row : list string) : result (list T) :=
  if row_number >? 1 then for_enumerate read_row_body 0 row temperatures
  else Ok temperatures.

Definition read_history (file_name : string) : io (list T) :=
  rows ← open_table file_name;
  io_of_result (for_enumerate read_rows_body 0 rows []).

(** [create_midi]: one tempo event, one note per pitch at
    [time * duration], then the track goes to the library. *)
Definition create_midi (sequence : list Z) (tempo volume : Z)
    (file_name : string) (duration : Z) : io unit :=
  let track := 0 in
  let channel := 0 in
  let music := {| midi_tempo := [(track, 0 * duration, tempo)]; midi_notes := [] |} in
  let '(music, _) :=
    fold_left
      (fun '(music, time) pitch =>
         ({| midi_tempo := midi_tempo music;
             midi_notes := midi_notes music ++
               [{| note_track := track; note_channel := channel;
                   note_pitch := pitch; note_time := time * duration;
                   note_duration := duration; note_volume := volume |}] |},
          time + 1))
      sequence (music, 0) in
  write_track file_name music.

Definition duration_monthly : Z := 1.
Definition duration_yearly : Z := duration_monthly * 12.
Definition duration_by_decade : Z := duration_yearly * 10.

Definition create_monthly_sequence (temperature_data output_midi_file_name : string)
    (bpm volume midi_note_min midi_note_max : Z) : io unit :=
  temperature_history ← read_history temperature_data;
  new_increments ← io_of_result
    (midi_normalization temperature_history midi_note_min midi_note_max);
  let sequence := convert_sequence temperature_history new_increments midi_note_min in
  create_midi sequence bpm volume (output_midi_file_name +:+ "_monthly.mid")
    duration_monthly.

Definition create_yearly_sequence (temperature_data output_midi_file_name : string)
    (bpm volume midi_note_min midi_note_max : Z) : io unit :=
  temperature_history ← read_history temperature_data;
  yearly_history ← io_of_result (step_average temperature_history duration_yearly);
  new_increments ← io_of_result
    (midi_normalization yearly_history midi_note_min midi_note_max);
  let sequence := convert_sequence yearly_history new_increments midi_note_min in
  create_midi sequence bpm volume (output_midi_file_name +:+ "_yearly.mid")
    duration_yearly.

Definition create_decade_sequence (temperature_data output_midi_file_name : string)
    (bpm volume midi_note_min midi_note_max : Z) : io unit :=
  temperature_history ← read_history temperature_data;
  decade_history ← io_of_result (step_average temperature_history duration_by_decade);
  new_increments ← io_of_result
    (midi_normalization decade_history midi_note_min midi_note_max);
  let sequence := convert_sequence decade_history new_increments midi_note_min in
  create_midi sequence bpm volume (output_midi_file_name +:+ "_decade.mid")
    duration_by_decade.

Definition create_all_sequences (temperature_data output_midi_file_name : string)
    (bpm volume midi_note_min midi_note_max : Z) : io unit :=
  _ ← create_monthly_sequence temperature_data output_midi_file_name bpm volume
        midi_note_min midi_note_max;
  _ ← create_yearly_sequence temperature_data output_midi_file_name bpm volume
        midi_note_min midi_note_max;
  create_decade_sequence temperature_data output_midi_file_name bpm volume
    midi_note_min midi_note_max.

(** ** Dispatch *)

(** What [mode_switch.get(mode, "invalid mode")] can return: one of the
    four functions, or the string given as default. *)
Inductive pyobj : Type :=
  | PyFunc (f : string -> string -> Z -> Z -> Z -> Z -> io unit)
  | PyStr (s : string).

Definition mode_switch : gmap Z pyobj :=
  {[ 0 := PyFunc create_monthly_sequence;
     1 := PyFunc create_yearly_sequence;
     2 := PyFunc create_decade_sequence;
     3 := PyFunc create_all_sequences ]}.

(** [d.get(key, dflt)] *)
Definition dict_get (d : gmap Z pyobj) (key : Z) (dflt : pyobj) : pyobj :=
  default dflt (d !! key).

(** [func(a, b, c, d, e, f)]: calling a [str] raises [TypeError]. *)
Definition py_call (func : pyobj) (a b : string) (c d e f : Z) : io unit :=
  match func with
  | PyFunc g => g a b c d e f
  | PyStr _ => io_of_result (Raise TypeError)
  end.

Definition set_mode (mode : Z) (temperature_data output_midi_file_name : string)
    (bpm volume midi_note_min midi_note_max : Z) : io unit :=
  let func := dict_get mode_switch mode (PyStr "invalid mode") in
  py_call func temperature_data output_midi_file_name bpm volume
    midi_note_min midi_note_max.

(** The call the script makes when it is run. *)
Definition surface_temp_history : string := "NH.Ts+dSST.csv".

Definition main : io unit :=
  set_mode 3 surface_temp_history "just_warming_up" 160 112 24 96.
End Sequencer.

(** A fragment of [float()] to run the reader on: decimal integers with an
    optional sign; everything else is refused with [ValueError]. *)
Fixpoint digits_value (s : string) (acc : Z) : option Z :=
  match s with
  | EmptyString => Some acc
  | String c rest =>
      let d := Z.of_N (Ascii.N_of_ascii c) - 48 in
      if (0 <=? d) && (d <=? 9) then digits_value rest (10 * acc + d) else None
  end.

Definition int_literal (s : string) : option Z :=
  match s with
  | EmptyString => None
  | String "-"%char (String c rest) => Z.opp <$> digits_value (String c rest) 0
  | _ => digits_value s 0
  end.

Definition float_of_digits {T} `{Number T} (s : string) : result T :=
  match int_literal s with
  | Some z => Ok (num_of_int z)
  | None => Raise ValueError
  end.

(** ** Vocabulary of the statements *)

Section Windows.
Context {T : Type} `{Number T}.

(** The value [get_list_average] returns on a non-empty list. *)
Definition mean (l : list T) : T := num_div (py_sum l) (num_of_int (py_len l)).

(** The [k]-th window of [step] consecutive elements, counted from 0. *)
Definition window (step k : nat) (s : list T) : list T :=
  take step (drop (k * step) s).

(** The downsampling as the specification words it: the mean of every
    complete window, in order; only an incomplete last window is left
    out. A list of [n] elements has [n // step] complete windows. *)
Definition complete_window_means (s : list T) (step : Z) : list T :=
  (fun k => mean (window (Z.to_nat step) k s)) <$> seq 0 (Z.to_nat (py_len s / step)).

(** What the loop of [step_average] hands out: the means of the windows
    that are followed by at least one more element. *)
Definition followed_window_means (s : list T) (step : Z) : list T :=
  (fun k => mean (window (Z.to_nat step) k s)) <$> seq 0 (Z.to_nat ((py_len s - 1) / step)).
End Windows.

Section Thresholds.
Context {T : Type} `{Number T}.

(** The bucketing as the specification words it: the position of the
    first threshold that is [>=] the value, plus [minIndex]; nothing when
    no threshold is. *)
Definition first_threshold_note (v : T) (thresholds : list T) (minIndex : Z)
    : option Z :=
  (fun found => Z.of_nat found.1 + minIndex) <$>
    list_find (fun t => num_le v t = true) thresholds.

(** Every element is [<] each later one. *)
Definition strictly_ascending (l : list T) : Prop :=
  forall i j x y, (i < j)%nat -> l !! i = Some x -> l !! j = Some y ->
    num_lt x y = true.
End Thresholds.

(** The cells of a row at the column indices [lo <= c < hi] that do not
    hold the marker of a missing value, in column order. *)
Definition cells_in_window (lo hi : nat) (row : list string) : list string :=
  filter (fun cell => cell <> missing) (take (hi - lo) (drop lo row)).

(** The cells a reader with that window of columns keeps: none of the first
    two rows, then row after row. *)
Definition selected_cells (lo hi : nat) (rows : list (list string)) : list string :=
  concat (cells_in_window lo hi <$> drop 2 rows).

(** Two neighbouring doubles: [1 + 2^-52] and [1 + 2^-51], written
    1.0000000000000002 and 1.0000000000000004 in decimal. *)
Definition one_ulp_above_one : float := 0x1.0000000000001p+0%float.
Definition two_ulp_above_one : float := 0x1.0000000000002p+0%float.

(** A small table: a title row, a header row, then one row per year with
    the year, twelve months and two annual columns; the second year is cut
    short and misses February. *)
Definition sample_rows : list (list string) :=
  [ ["Land-Ocean: Northern Hemispheric Means"];
    ["Year"; "Jan"; "Feb"; "Mar"; "Apr"; "May"; "Jun"; "Jul"; "Aug"; "Sep";
     "Oct"; "Nov"; "Dec"; "J-D"; "D-N"];
    ["1880"; "1"; "2"; "3"; "4"; "5"; "6"; "7"; "8"; "9"; "10"; "11"; "12";
     "13"; "14"];
    ["1881"; "-1"; "***"; "3"] ].

Definition sample_world : world :=
  {| tables := {[ "t.csv" := sample_rows ]}; written := ∅ |}.

(** The track [create_midi] hands to the encoder for a sequence of
    pitches: the tempo at time 0 and one note per pitch, the note at
    position [p] starting at [p * duration]. *)
Definition track_of (sequence : list Z) (tempo volume duration : Z) : midi_file :=
  {| midi_tempo := [(0, 0, tempo)];
     midi_notes :=
       imap (fun position pitch =>
               {| note_track := 0; note_channel := 0; note_pitch := pitch;
                  note_time := Z.of_nat position * duration;
                  note_duration := duration; note_volume := volume |})
         sequence |}.


(** Whether every [int] that [midi_normalization] converts can be
    converted: the number of notes and the loop indices. *)
Definition indices_fit {T : Type} `{Number T} (lo hi : Z) : bool :=
  num_int_fits (hi - lo) && forallb num_int_fits (py_range lo hi).

(** A table with a single year of three months. *)
Definition short_rows : list (list string) :=
  [ ["Land-Ocean: Northern Hemispheric Means"];
    ["Year"; "Jan"; "Feb"; "Mar"];
    ["1880"; "10"; "20"; "30"] ].

Definition short_world : world :=
  {| tables := {[ "t.csv" := short_rows ]}; written := ∅ |}.

(** * Properties *)

(** ** Loops *)

Lemma bind_ok {A B} (a : A) (f : A -> result B) : (Ok a ≫= f) = f a.
Proof. reflexivity. Qed.

Lemma for_enumerate_app {A St} (body : St -> Z -> A -> result St) l1 l2 n st :
  for_enumerate body n (l1 ++ l2) st =
  for_enumerate body n l1 st ≫= for_enumerate body (n + py_len l1) l2.
Proof.
  revert n st. induction l1 as [|x l1 IH]; intros n st; simpl.
  - unfold py_len. simpl. by rewrite Z.add_0_r.
  - destruct (body st n x) as [st'|e]; [|done].
    simpl. rewrite IH. unfold py_len. simpl length.
    by replace (n + 1 + Z.of_nat (length l1)) with (n + Z.of_nat (S (length l1))) by lia.
Qed.

Lemma for_each_append {A B} (g : A -> B) (body : list B -> A -> result (list B)) l acc :
  (forall acc' x, body acc' x = Ok (acc' ++ [g x])) ->
  for_each body l acc = Ok (acc ++ (g <$> l)).
Proof.
  intros Hbody. revert acc. induction l as [|x l IH]; intros acc; simpl.
  - by rewrite app_nil_r.
  - rewrite Hbody, bind_ok, IH, <- app_assoc. done.
Qed.

Lemma for_each_guarded {A B} (fits : A -> bool) (g : A -> B) (e : exn)
    (body : list B -> A -> result (list B)) l acc :
  (forall acc' x, body acc' x = if fits x then Ok (acc' ++ [g x]) else Raise e) ->
  for_each body l acc = if forallb fits l then Ok (acc ++ (g <$> l)) else Raise e.
Proof.
  intros Hbody. revert acc. induction l as [|x l IH]; intros acc; simpl.
  - by rewrite app_nil_r.
  - rewrite Hbody. destruct (fits x); simpl; [|done].
    rewrite IH. destruct (forallb fits l); [|done]. by rewrite <- app_assoc.
Qed.

(** ** Block averaging *)

Section StepAverage.
Context {T : Type} `{Number T}.

Lemma get_list_average_nonempty (l : list T) :
  l <> [] -> get_list_average l = Ok (mean l).
Proof.
  intros Hl. unfold get_list_average, py_truediv_len, mean.
  destruct (Z.eqb_spec (py_len l) 0) as [Hz|]; [|done].
  unfold py_len in Hz. destruct l; [done|simpl in Hz; lia].
Qed.

Lemma window_app (step k : nat) (l l' : list T) :
  ((k + 1) * step <= length l)%nat ->
  window step k (l ++ l') = window step k l.
Proof.
  intros Hk. unfold window.
  rewrite drop_app_le by lia.
  rewrite take_app_le; [done|]. rewrite length_drop. lia.
Qed.

Lemma window_means_app (step q : nat) (l l' : list T) :
  (q * step <= length l)%nat ->
  (fun k => mean (window step k (l ++ l'))) <$> seq 0 q =
  (fun k => mean (window step k l)) <$> seq 0 q.
Proof.
  intros Hq. apply Forall_fmap_ext, Forall_seq. intros k Hk.
  rewrite window_app; [done|]. nia.
Qed.

(** The state of the loop after a whole list: [q] means handed out, and
    the elements from [q * step] on still collected; the collected part
    is never empty once an element has been read. *)
Lemma step_average_loop (step : Z) (s : list T) :
  1 <= step ->
  exists q : nat,
    for_enumerate (step_average_body step) 0 s ([], []) =
      Ok ((fun k => mean (window (Z.to_nat step) k s)) <$> seq 0 q,
          drop (q * Z.to_nat step) s)
    /\ (s = [] /\ q = 0%nat \/
        (q * Z.to_nat step < length s <= (q + 1) * Z.to_nat step)%nat).
Proof.
  intros Hstep. set (st := Z.to_nat step).
  assert (Hst : Z.of_nat st = step) by (unfold st; lia).
  clearbody st.
  induction s as [|x l IH] using rev_ind.
  { exists 0%nat. simpl. split; [done|by left]. }
  destruct IH as (q & Hloop & Hq).
  rewrite for_enumerate_app, Hloop, bind_ok. simpl.
  unfold py_mod.
  destruct (Z.eqb_spec step 0) as [|_]; [lia|]. rewrite bind_ok, Z.add_0_l.
  destruct Hq as [[-> ->]|Hq].
  { exists 0%nat. unfold py_len. simpl.
    split; [done|]. right. lia. }
  assert (Hn : py_len l <> 0) by (unfold py_len; lia).
  destruct (Z.eqb_spec (py_len l) 0) as [|_]; [done|].
  rewrite andb_true_r.
  destruct (Z.eqb_spec (py_len l mod step) 0) as [Hmod|Hmod].
  - assert (Hlen : length l = ((q + 1) * st)%nat).
    { apply Z.mod_divide in Hmod as [c Hc]; [|lia]. unfold py_len in Hc.
      assert (Hlo : Z.of_nat q * step < c * step) by lia.
      assert (Hhi : c * step <= (Z.of_nat q + 1) * step) by lia.
      assert (c = Z.of_nat q + 1) by nia. subst c. lia. }
    rewrite get_list_average_nonempty, bind_ok.
    2:{ intros Hnil. apply (f_equal length) in Hnil.
        rewrite length_drop in Hnil. simpl in Hnil. nia. }
    exists (q + 1)%nat. split; [|right; rewrite length_app; simpl; nia].
    assert (Hcur : window st q (l ++ [x]) = drop (q * st) l).
    { unfold window. rewrite drop_app_le by lia.
      rewrite take_app_le by (rewrite length_drop; lia).
      rewrite take_ge; [done|]. rewrite length_drop. lia. }
    rewrite Nat.add_1_r at 1. rewrite seq_S, fmap_app. simpl seq. simpl fmap.
    rewrite Hcur, window_means_app by lia.
    by rewrite <- Hlen, drop_app_length.
  - assert (Hlen : (length l < (q + 1) * st)%nat).
    { destruct (decide (length l = ((q + 1) * st)%nat)) as [Heq|]; [|lia].
      exfalso. apply Hmod. unfold py_len. rewrite Heq, <- Hst.
      rewrite Nat2Z.inj_mul. apply Z.mod_mul. lia. }
    exists q. split; [|right; rewrite length_app; simpl; lia].
    rewrite bind_ok, window_means_app by lia.
    by rewrite drop_app_le by lia.
Qed.

Lemma step_average_followed (s : list T) (step : Z) :
  1 <= step -> step_average s step = Ok (followed_window_means s step).
Proof.
  intros Hstep. destruct (step_average_loop step s Hstep) as (q & Hloop & Hq).
  unfold step_average. rewrite Hloop, bind_ok. simpl. f_equal.
  unfold followed_window_means. f_equal. f_equal.
  destruct Hq as [[-> ->]|Hq].
  - change (py_len (@nil T)) with 0.
    assert ((0 - 1) / step < 0) by (apply Z.div_lt_upper_bound; lia). lia.
  - assert ((py_len s - 1) / step = Z.of_nat q); [|lia].
    symmetry. apply (Z.div_unique _ _ _ (py_len s - 1 - step * Z.of_nat q)); [|lia].
    left. unfold py_len. nia.
Qed.

Lemma for_enumerate_ext {A St} (body1 body2 : St -> Z -> A -> result St) l n st :
  (forall st' n' x, body1 st' n' x = body2 st' n' x) ->
  for_enumerate body1 n l st = for_enumerate body2 n l st.
Proof.
  intros Hext. revert n st. induction l as [|x l IH]; intros n st; simpl; [done|].
  rewrite Hext. destruct (body2 st n x); simpl; [apply IH|done].
Qed.

Lemma mod_opp_eqb (n step : Z) : (n mod (- step) =? 0) = (n mod step =? 0).
Proof.
  destruct (decide (step = 0)) as [->|Hstep]; [done|].
  destruct (Z.eqb_spec (n mod step) 0) as [Hz|Hnz].
  - apply Z.eqb_eq. by apply Z.mod_opp_r_z.
  - apply Z.eqb_neq. rewrite Z.mod_opp_r_nz by done. intros Hz.
    pose proof (Z.mod_bound_or n step Hstep). lia.
Qed.

Lemma step_average_body_opp (step : Z) (st : list T * list T) n x :
  step <> 0 -> step_average_body step st n x = step_average_body (- step) st n x.
Proof.
  intros Hstep. unfold step_average_body, py_mod. destruct st as [stepped cur].
  destruct (Z.eqb_spec step 0) as [|_]; [done|].
  destruct (Z.eqb_spec (- step) 0) as [|_]; [lia|].
  by rewrite !bind_ok, mod_opp_eqb.
Qed.

(** C9, as amended: for every list and every step >= 1, [step_average]
    returns the means of the windows that are followed by at least one more
    element of the input, in order: the [k]-th mean is there exactly when
    [(k + 1) * step < len(sequence)]. Its length is
    [(len(sequence) - 1) // step] for a non-empty input, and 0 for the
    empty one. *)
Theorem step_average_length (s : list T) (step : Z) :
  1 <= step ->
  exists r, step_average s step = Ok r
    /\ r = followed_window_means s step
    /\ (s <> [] -> py_len r = (py_len s - 1) / step)
    /\ (s = [] -> r = [])
    /\ (forall k : nat, (k < length r)%nat <-> (Z.of_nat k + 1) * step < py_len s).
Proof.
  intros Hstep. exists (followed_window_means s step).
  split; [by apply step_average_followed|]. split; [done|].
  assert (Hlen : length (followed_window_means s step)
                 = Z.to_nat ((py_len s - 1) / step)).
  { unfold followed_window_means. by rewrite length_fmap, length_seq. }
  pose proof (Z.div_mod (py_len s - 1) step ltac:(lia)) as Hdm.
  pose proof (Z.mod_pos_bound (py_len s - 1) step ltac:(lia)) as Hr.
  assert (Hs : s = [] \/ 1 <= py_len s).
  { destruct s; [by left|right; unfold py_len; simpl; lia]. }
  split; [|split].
  - intros Hne. destruct Hs as [|Hs]; [done|].
    unfold py_len at 1. rewrite Hlen. apply Z2Nat.id. apply Z.div_pos; lia.
  - intros Hnil. apply nil_length_inv. rewrite Hlen, Hnil.
    change (py_len (@nil T)) with 0.
    assert ((0 - 1) / step < 0) by (apply Z.div_lt_upper_bound; lia). lia.
  - intros k. rewrite Hlen. destruct Hs as [->|Hs].
    + change (py_len (@nil T)) with 0 in *.
      assert ((0 - 1) / step < 0) by (apply Z.div_lt_upper_bound; lia). nia.
    + assert (0 <= (py_len s - 1) / step) by (apply Z.div_pos; lia). nia.
Qed.

(** C7, as amended: with a step <= 0, [step_average] raises only for the
    step 0 on a non-empty list, and what it raises is the
    [ZeroDivisionError] of the remainder; the step 0 on an empty list
    returns the empty list, and a negative step returns what its absolute
    value returns. *)
Theorem step_average_nonpositive_step (s : list T) (step : Z) :
  step <= 0 ->
  step_average s step =
    if step =? 0 then match s with [] => Ok [] | _ :: _ => Raise ZeroDivisionError end
    else Ok (followed_window_means s (- step)).
Proof.
  intros Hstep. destruct (Z.eqb_spec step 0) as [->|Hnz].
  - destruct s; reflexivity.
  - rewrite <- step_average_followed by lia. unfold step_average.
    by rewrite (for_enumerate_ext _ (step_average_body (- step)))
      by (intros; by apply step_average_body_opp).
Qed.
End StepAverage.

(** With step 1 and exact arithmetic every mean is the element itself, and
    the result is the input without its last element. *)
Lemma step_average_one_exact (S : list Qc) :
  step_average S 1 = Ok (take (length S - 1) S).
Proof.
  rewrite step_average_followed by lia. f_equal.
  unfold followed_window_means. apply list_eq. intros i.
  rewrite list_lookup_fmap, Z.div_1_r.
  destruct (decide (i < length S - 1)%nat) as [Hi|Hi].
  - rewrite lookup_seq_lt by (unfold py_len; lia). simpl.
    rewrite lookup_take_lt by done.
    destruct (lookup_lt_is_Some_2 S i ltac:(lia)) as [x Hx]. rewrite Hx. f_equal.
    unfold window. rewrite Nat.mul_1_r.
    rewrite (drop_S _ _ _ Hx). simpl. rewrite take_0.
    unfold mean, py_sum, py_len. simpl. change (Z.of_nat 1) with 1.
    rewrite Z2Qc_inj_0, Z2Qc_inj_1, Qcplus_0_l. apply (right_id 1%Qc Qcdiv).
  - rewrite lookup_seq_ge by (unfold py_len; lia). simpl.
    symmetry. apply lookup_ge_None. rewrite length_take. lia.
Qed.

(** C1: on [[1,2,3,4,5,6,7,8]] with step 4 the loop returns [[2.5]]: the
    second window is complete, but no element follows it, so its mean is
    never appended. The means of the complete windows are [[2.5, 6.5]];
    the example in the docstring, on this very input, has two elements as
    well. *)
Theorem step_average_misses_last_window :
  step_average (T:=float) [1; 2; 3; 4; 5; 6; 7; 8]%float 4 = Ok [2.5%float]
  /\ complete_window_means (T:=float) [1; 2; 3; 4; 5; 6; 7; 8]%float 4
     = [2.5; 6.5]%float.
Proof. split; vm_compute; reflexivity. Qed.

(** C2: with step 1 the result is not the series: [[1.0, 2.0, 3.0]] comes
    back as [[1.0, 2.0]], and in exact arithmetic every series comes back
    without its last element. *)
Theorem step_average_one_drops_last :
  step_average (T:=float) [1; 2; 3]%float 1 = Ok [1; 2]%float
  /\ forall S : list Qc, step_average S 1 = Ok (take (length S - 1) S).
Proof. split; [vm_compute; reflexivity|apply step_average_one_exact]. Qed.

(** C7, counterexample: a negative step raises nothing. *)
Lemma step_average_negative_step_returns :
  step_average (T:=float) [1; 2; 3; 4; 5]%float (-2) = Ok [1.5; 3.5]%float.
Proof. vm_compute. reflexivity. Qed.

Lemma step_average_nonpositive_step_witness :
  step_average (T:=float) [1; 2; 3; 4; 5]%float (-2) =
    if -2 =? 0 then Raise ZeroDivisionError
    else Ok (followed_window_means [1; 2; 3; 4; 5]%float (- -2)).
Proof. apply (step_average_nonpositive_step [1; 2; 3; 4; 5]%float (-2)). lia. Defined.

(** C9, counterexample: the empty list has length 0, and
    [(0 - 1) // 1] is -1. *)
Lemma step_average_empty_length :
  step_average (T:=float) [] 1 = Ok []
  /\ py_len (@nil float) <> (py_len (@nil float) - 1) / 1.
Proof. split; [reflexivity|vm_compute; discriminate]. Qed.

Lemma step_average_length_witness :
  exists r, step_average (T:=float) [1; 2; 3; 4; 5; 6; 7; 8]%float 4 = Ok r
    /\ r = followed_window_means [1; 2; 3; 4; 5; 6; 7; 8]%float 4
    /\ ([1; 2; 3; 4; 5; 6; 7; 8]%float <> [] -> py_len r = (8 - 1) / 4)
    /\ ([1; 2; 3; 4; 5; 6; 7; 8]%float = [] -> r = [])
    /\ (forall k : nat, (k < length r)%nat <-> (Z.of_nat k + 1) * 4 < 8).
Proof. apply (step_average_length [1; 2; 3; 4; 5; 6; 7; 8]%float 4). lia. Defined.

(** ** Bucketing *)

Section ConvertSequence.
Context {T : Type} `{Number T}.

Lemma scan_increments_find (t : T) (increments : list T) (num lo : Z) :
  scan_increments t increments num lo =
  (fun found => num + Z.of_nat found.1 + lo) <$>
    list_find (fun i => num_le t i = true) increments.
Proof.
  revert num. induction increments as [|i rest IH]; intros num; [done|].
  cbn [scan_increments list_find]. destruct (num_le t i) eqn:Hle.
  - rewrite decide_True by done. simpl. f_equal. lia.
  - rewrite decide_False by done. rewrite IH, <- option_fmap_compose.
    apply option_fmap_ext. intros [p y]. simpl. lia.
Qed.

Lemma scan_increments_note (t : T) (increments : list T) (lo : Z) :
  scan_increments t increments 0 lo = first_threshold_note t increments lo.
Proof. rewrite scan_increments_find. by apply option_fmap_ext. Qed.

Lemma convert_sequence_loop (temperatures increments : list T) (lo : Z) (acc : list Z) :
  fold_left
    (fun sequence t =>
       match scan_increments t increments 0 lo with
       | Some note => sequence ++ [note]
       | None => sequence
       end) temperatures acc
  = acc ++ omap (fun t => first_threshold_note t increments lo) temperatures.
Proof.
  revert acc. induction temperatures as [|t rest IH]; intros acc; simpl.
  - by rewrite app_nil_r.
  - rewrite IH, scan_increments_note.
    destruct (first_threshold_note t increments lo); [|done].
    by rewrite <- app_assoc.
Qed.

Lemma first_threshold_note_spec (v : T) (thresholds : list T) (lo : Z) :
  match first_threshold_note v thresholds lo with
  | Some n =>
      exists (p : nat) (t : T),
        n = Z.of_nat p + lo /\ thresholds !! p = Some t /\ num_le v t = true
        /\ forall (q : nat) (u : T),
             (q < p)%nat -> thresholds !! q = Some u -> num_le v u = false
  | None => forall t, t ∈ thresholds -> num_le v t = false
  end.
Proof.
  unfold first_threshold_note.
  destruct (list_find _ thresholds) as [[p t]|] eqn:Hfind; simpl.
  - apply list_find_Some in Hfind as (Hp & Ht & Hbefore).
    exists p, t. repeat split; [done..|].
    intros q u Hq Hu. specialize (Hbefore q u Hu Hq).
    by destruct (num_le v u).
  - apply list_find_None in Hfind. intros t Ht.
    rewrite Forall_forall in Hfind. specialize (Hfind t Ht).
    by destruct (num_le v t).
Qed.

(** C5: [convert_sequence] goes through the values in order and maps each
    one to the position of the first threshold that is [>=] it (a value
    equal to a threshold takes that threshold's position), plus
    [minIndex]; a value that is [<=] no threshold contributes nothing; and
    with [maxIndex - minIndex] thresholds every index handed out lies in
    [[minIndex, maxIndex]]. *)
Theorem convert_sequence_first_threshold
    (values thresholds : list T) (minIndex maxIndex : Z) :
  py_len thresholds = maxIndex - minIndex ->
  convert_sequence values thresholds minIndex
    = omap (fun v => first_threshold_note v thresholds minIndex) values
  /\ (forall v,
        match first_threshold_note v thresholds minIndex with
        | Some n =>
            exists (p : nat) (t : T),
              n = Z.of_nat p + minIndex /\ thresholds !! p = Some t
              /\ num_le v t = true
              /\ forall (q : nat) (u : T),
                   (q < p)%nat -> thresholds !! q = Some u -> num_le v u = false
        | None => forall t, t ∈ thresholds -> num_le v t = false
        end)
  /\ Forall (fun n => minIndex <= n <= maxIndex)
       (convert_sequence values thresholds minIndex).
Proof.
  intros Hlen.
  assert (Hconv : convert_sequence values thresholds minIndex
            = omap (fun v => first_threshold_note v thresholds minIndex) values).
  { unfold convert_sequence. by rewrite convert_sequence_loop. }
  split; [done|]. split; [intros v; apply first_threshold_note_spec|].
  rewrite Hconv. apply Forall_forall. intros n Hn.
  apply list_elem_of_omap in Hn as (v & _ & Hv).
  pose proof (first_threshold_note_spec v thresholds minIndex) as Hspec.
  rewrite Hv in Hspec. destruct Hspec as (p & t & -> & Hp & _).
  apply lookup_lt_Some in Hp. unfold py_len in Hlen. lia.
Qed.
End ConvertSequence.

Lemma convert_sequence_first_threshold_witness :
  convert_sequence [10; 20; 30]%float [10; 20]%float 0
    = omap (fun v => first_threshold_note v [10; 20]%float 0) [10; 20; 30]%float
  /\ (forall v : float,
        match first_threshold_note v [10; 20]%float 0 with
        | Some n =>
            exists (p : nat) (t : float),
              n = Z.of_nat p + 0 /\ [10; 20]%float !! p = Some t
              /\ num_le v t = true
              /\ forall (q : nat) (u : float),
                   (q < p)%nat -> [10; 20]%float !! q = Some u -> num_le v u = false
        | None => forall t, t ∈ [10; 20]%float -> num_le v t = false
        end)
  /\ Forall (fun n => 0 <= n <= 2) (convert_sequence [10; 20; 30]%float [10; 20]%float 0).
Proof.
  apply (convert_sequence_first_threshold [10; 20; 30]%float [10; 20]%float 0 2).
  reflexivity.
Defined.

(** ** Normalisation *)

Section Normalization.
Context {T : Type} `{Number T}.

(** What [midi_normalization] does on a list whose [max] and [min] are
    known, in every arithmetic: the number of notes is converted and
    tested against 0, then the table of [min + i * increment] is built for
    [i] in [range(minIndex, maxIndex)], as long as every [i] can be
    converted. *)
Lemma midi_normalization_run (vs : list T) (lo hi : Z) (mn mx : T) :
  py_max vs = Ok mx -> py_min vs = Ok mn ->
  midi_normalization vs lo hi =
    if num_int_fits (hi - lo) then
      if hi - lo =? 0 then Raise ZeroDivisionError
      else if forallb num_int_fits (py_range lo hi) then
        Ok ((fun i => num_add mn
               (num_mul (num_of_int i)
                  (num_div (num_sub mx mn) (num_of_int (hi - lo)))))
            <$> py_range lo hi)
      else Raise OverflowError
    else Raise OverflowError.
Proof.
  intros Hmx Hmn. unfold midi_normalization, py_truediv_int, py_float_of_int.
  rewrite Hmx, Hmn, !bind_ok.
  destruct (num_int_fits (hi - lo)); [|done]. rewrite bind_ok.
  destruct (hi - lo =? 0); [done|]. rewrite bind_ok.
  rewrite (for_each_guarded num_int_fits (fun i => num_add mn
    (num_mul (num_of_int i) (num_div (num_sub mx mn) (num_of_int (hi - lo)))))
    OverflowError); [done|].
  intros acc i. rewrite bind_ok. unfold py_int_mul, py_float_of_int.
  by destruct (num_int_fits i).
Qed.

Lemma midi_normalization_table (vs : list T) (lo hi : Z) (mn mx : T) :
  py_max vs = Ok mx -> py_min vs = Ok mn -> hi - lo <> 0 ->
  indices_fit lo hi = true ->
  midi_normalization vs lo hi =
    Ok ((fun i => num_add mn
           (num_mul (num_of_int i) (num_div (num_sub mx mn) (num_of_int (hi - lo)))))
        <$> py_range lo hi).
Proof.
  intros Hmx Hmn Hd [Hfit Hfits]%andb_true_iff.
  rewrite (midi_normalization_run vs lo hi mn mx Hmx Hmn), Hfit, Hfits.
  by destruct (Z.eqb_spec (hi - lo) 0).
Qed.

(** When [midi_normalization] returns, it returns that table. *)
Lemma midi_normalization_returns (vs : list T) (lo hi : Z) (thresholds : list T) :
  midi_normalization vs lo hi = Ok thresholds ->
  exists mn mx,
    py_max vs = Ok mx /\ py_min vs = Ok mn
    /\ thresholds =
         (fun i => num_add mn
            (num_mul (num_of_int i) (num_div (num_sub mx mn) (num_of_int (hi - lo)))))
         <$> py_range lo hi.
Proof.
  destruct vs as [|x rest]; [done|].
  rewrite (midi_normalization_run (x :: rest) lo hi _ _ eq_refl eq_refl).
  destruct (num_int_fits (hi - lo)); [|done].
  destruct (hi - lo =? 0); [done|].
  destruct (forallb num_int_fits (py_range lo hi)); [|done].
  intros [= <-]. by eexists _, _.
Qed.
End Normalization.

(** *** Exact arithmetic *)

Local Open Scope Qc_scope.

Lemma exact_lt (x y : Qc) : num_lt x y = true <-> x < y.
Proof. apply bool_decide_eq_true. Qed.

Lemma exact_le (x y : Qc) : num_le x y = true <-> x <= y.
Proof. apply bool_decide_eq_true. Qed.

Lemma exact_not_lt (x y : Qc) : num_lt x y = false <-> y <= x.
Proof.
  rewrite <- not_true_iff_false, exact_lt. split; [apply Qcnot_lt_le|apply Qcle_not_lt].
Qed.

Lemma fold_min_exact (rest : list Qc) (x : Qc) :
  fold_left (fun m y => if num_lt y m then y else m) rest x ∈ x :: rest
  /\ forall v, v ∈ x :: rest ->
       fold_left (fun m y => if num_lt y m then y else m) rest x <= v.
Proof.
  revert x. induction rest as [|y rest IH]; intros x; cbn [fold_left].
  - split; [apply list_elem_of_here|].
    intros v ->%list_elem_of_singleton. apply Qcle_refl.
  - assert (Hstep : exists c, (if num_lt y x then y else x) = c
                      /\ (c = x \/ c = y) /\ c <= x /\ c <= y).
    { destruct (num_lt y x) eqn:Hlt; eexists; (split; [done|]).
      - apply exact_lt in Hlt.
        split; [by right|]. split; [by apply Qclt_le_weak|apply Qcle_refl].
      - apply exact_not_lt in Hlt. split; [by left|]. split; [apply Qcle_refl|done]. }
    destruct Hstep as (c & -> & Hc & Hcx & Hcy).
    destruct (IH c) as [Hin Hle]. split.
    + apply elem_of_cons in Hin as [Hin|Hin].
      * rewrite Hin. destruct Hc as [->| ->]; [apply list_elem_of_here|].
        apply list_elem_of_further, list_elem_of_here.
      * by do 2 apply list_elem_of_further.
    + intros v Hv. apply elem_of_cons in Hv as [->|Hv].
      * eapply Qcle_trans; [|apply Hcx]. apply Hle, list_elem_of_here.
      * apply elem_of_cons in Hv as [->|Hv].
        -- eapply Qcle_trans; [|apply Hcy]. apply Hle, list_elem_of_here.
        -- by apply Hle, list_elem_of_further.
Qed.

Lemma fold_max_exact (rest : list Qc) (x : Qc) :
  fold_left (fun m y => if num_lt m y then y else m) rest x ∈ x :: rest
  /\ forall v, v ∈ x :: rest ->
       v <= fold_left (fun m y => if num_lt m y then y else m) rest x.
Proof.
  revert x. induction rest as [|y rest IH]; intros x; cbn [fold_left].
  - split; [apply list_elem_of_here|].
    intros v ->%list_elem_of_singleton. apply Qcle_refl.
  - assert (Hstep : exists c, (if num_lt x y then y else x) = c
                      /\ (c = x \/ c = y) /\ x <= c /\ y <= c).
    { destruct (num_lt x y) eqn:Hlt; eexists; (split; [done|]).
      - apply exact_lt in Hlt.
        split; [by right|]. split; [by apply Qclt_le_weak|apply Qcle_refl].
      - apply exact_not_lt in Hlt. split; [by left|]. split; [apply Qcle_refl|done]. }
    destruct Hstep as (c & -> & Hc & Hcx & Hcy).
    destruct (IH c) as [Hin Hle]. split.
    + apply elem_of_cons in Hin as [Hin|Hin].
      * rewrite Hin. destruct Hc as [->| ->]; [apply list_elem_of_here|].
        apply list_elem_of_further, list_elem_of_here.
      * by do 2 apply list_elem_of_further.
    + intros v Hv. apply elem_of_cons in Hv as [->|Hv].
      * eapply Qcle_trans; [apply Hcx|]. apply Hle, list_elem_of_here.
      * apply elem_of_cons in Hv as [->|Hv].
        -- eapply Qcle_trans; [apply Hcy|]. apply Hle, list_elem_of_here.
        -- by apply Hle, list_elem_of_further.
Qed.

(** On a non-empty list [min] and [max] return its least and its greatest
    element. *)
Lemma py_min_max_exact (vs : list Qc) :
  (0 < length vs)%nat ->
  exists mn mx, py_min vs = Ok mn /\ py_max vs = Ok mx
    /\ mn ∈ vs /\ mx ∈ vs /\ forall v, v ∈ vs -> mn <= v <= mx.
Proof.
  destruct vs as [|x rest]; simpl; [lia|]. intros _.
  destruct (fold_min_exact rest x) as [Hmin_in Hmin].
  destruct (fold_max_exact rest x) as [Hmax_in Hmax].
  eexists _, _. repeat split; [done..|by apply Hmin|by apply Hmax].
Qed.

Lemma exact_indices_fit (lo hi : Z) : indices_fit (T:=Qc) lo hi = true.
Proof.
  unfold indices_fit. cbn [num_int_fits exact andb].
  apply forallb_forall. done.
Qed.

Lemma exact_table_lookup (mn inc : Qc) (lo hi : Z) (k : nat) (t : Qc) :
  ((fun i => num_add mn (num_mul (num_of_int i) inc)) <$> py_range lo hi) !! k = Some t
  <-> t = mn + Qc_of_Z (lo + Z.of_nat k) * inc /\ (Z.of_nat k < hi - lo)%Z.
Proof.
  rewrite list_lookup_fmap, fmap_Some. unfold py_range. split.
  - intros (i & Hi%lookup_seqZ & ->). destruct Hi as [-> Hk]. done.
  - intros [-> Hk]. exists (lo + Z.of_nat k)%Z. split; [|done].
    by apply lookup_seqZ.
Qed.

Lemma Qc_sub_pos (x y : Qc) : x < y -> 0 < y - x.
Proof.
  intros Hxy. apply (Qcplus_lt_mono_r 0 (y - x) x).
  replace (0 + x) with x by ring. by replace (y - x + x) with y by ring.
Qed.

Lemma omap_filter_none {A B} (f : A -> option B) (P : A -> Prop)
    `{forall x, Decision (P x)} (l : list A) :
  (forall x, ~ P x -> f x = None) -> omap f (filter P l) = omap f l.
Proof.
  intros Hnone. induction l as [|x l IH]; [done|].
  destruct (decide (P x)) as [HP|HP].
  - rewrite filter_cons_True by done. csimpl. by rewrite IH.
  - rewrite filter_cons_False by done. csimpl. by rewrite (Hnone x HP).
Qed.

(** C4, as amended: in exact arithmetic, for a non-empty list and
    [maxIndex > minIndex], [midi_normalization] returns
    [maxIndex - minIndex] thresholds, the [k]-th being
    [min(values) + (minIndex + k) * increment] with
    [increment = (max(values) - min(values)) / (maxIndex - minIndex)]; they
    are strictly ascending when [increment > 0], and all equal to
    [min(values)] when all the values are equal. *)
Theorem midi_normalization_thresholds (values : list Qc) (minIndex maxIndex : Z) :
  (0 < length values)%nat -> (minIndex < maxIndex)%Z ->
  exists lo_v hi_v thresholds,
    py_min values = Ok lo_v /\ py_max values = Ok hi_v
    /\ lo_v ∈ values /\ hi_v ∈ values
    /\ (forall v, v ∈ values -> lo_v <= v <= hi_v)
    /\ midi_normalization values minIndex maxIndex = Ok thresholds
    /\ py_len thresholds = (maxIndex - minIndex)%Z
    /\ (forall k : nat, (Z.of_nat k < maxIndex - minIndex)%Z ->
          thresholds !! k =
            Some (lo_v + Qc_of_Z (minIndex + Z.of_nat k)
                         * ((hi_v - lo_v) / Qc_of_Z (maxIndex - minIndex))))
    /\ (0 < (hi_v - lo_v) / Qc_of_Z (maxIndex - minIndex) ->
          strictly_ascending thresholds)
    /\ ((forall v w, v ∈ values -> w ∈ values -> v = w) ->
          Forall (fun t => t = lo_v) thresholds).
Proof.
  intros Hne Hidx.
  destruct (py_min_max_exact values Hne)
    as (mn & mx & Hmn & Hmx & Hmn_in & Hmx_in & Hbound).
  eexists mn, mx, _. do 5 (split; [done|]).
  split; [apply midi_normalization_table; [done|done|lia|apply exact_indices_fit]|].
  split; [|split; [|split]].
  - unfold py_len, py_range. rewrite length_fmap, length_seqZ. lia.
  - intros k Hk. by apply exact_table_lookup.
  - intros Hinc i j x y Hij Hx Hy.
    apply exact_table_lookup in Hx as [-> Hi].
    apply exact_table_lookup in Hy as [-> Hj].
    apply exact_lt, Qcplus_lt_mono_l, Qcmult_lt_mono_pos_r; [done|].
    apply (proj1 (Z2Qc_inj_lt _ _)). lia.
  - intros Hall. assert (mx = mn) as -> by by apply Hall.
    apply Forall_forall. intros t Ht.
    apply list_elem_of_lookup in Ht as [k Hk].
    apply exact_table_lookup in Hk as [-> _].
    cbn [num_div num_sub num_of_int exact].
    unfold Qcdiv. replace (mn - mn) with 0 by ring.
    by rewrite Qcmult_0_l, Qcmult_0_r, Qcplus_0_r.
Qed.

(** C10, as amended: in exact arithmetic, for a non-empty list that holds
    two different values, [minIndex = 0] and [maxIndex > 0], the largest
    threshold is [min(values) + (maxIndex - 1) * increment], which is
    strictly below [max(values)]; so [convert_sequence] appends nothing for
    a position that holds the maximum, and its result is the one for the
    list without those positions. *)
Theorem maximum_never_bucketed (values : list Qc) (maxIndex : Z) :
  (0 < length values)%nat -> (0 < maxIndex)%Z ->
  (exists v w, v ∈ values /\ w ∈ values /\ v <> w) ->
  exists lo_v hi_v thresholds,
    py_min values = Ok lo_v /\ py_max values = Ok hi_v
    /\ midi_normalization values 0 maxIndex = Ok thresholds
    /\ last thresholds =
         Some (lo_v + Qc_of_Z (maxIndex - 1) * ((hi_v - lo_v) / Qc_of_Z maxIndex))
    /\ Forall (fun t => t <= lo_v + Qc_of_Z (maxIndex - 1)
                                  * ((hi_v - lo_v) / Qc_of_Z maxIndex)) thresholds
    /\ lo_v + Qc_of_Z (maxIndex - 1) * ((hi_v - lo_v) / Qc_of_Z maxIndex) < hi_v
    /\ first_threshold_note hi_v thresholds 0 = None
    /\ convert_sequence values thresholds 0
       = convert_sequence (filter (fun v => v <> hi_v) values) thresholds 0.
Proof.
  intros Hne Hidx (v & w & Hv & Hw & Hvw).
  destruct (py_min_max_exact values Hne)
    as (mn & mx & Hmn & Hmx & Hmn_in & Hmx_in & Hbound).
  assert (Hlt : mn < mx).
  { destruct (Qcle_lt_or_eq mn mx) as [|Heq]; [|done|].
    - eapply Qcle_trans; apply (Hbound v Hv).
    - exfalso. apply Hvw. subst mx.
      trans mn; [|symmetry]; apply Qcle_antisym; by apply Hbound. }
  assert (HM : 0 < Qc_of_Z maxIndex).
  { rewrite <- Z2Qc_inj_0. by apply (proj1 (Z2Qc_inj_lt _ _)). }
  set (inc := (mx - mn) / Qc_of_Z maxIndex).
  assert (Hinc : 0 < inc).
  { apply Qcmult_pos_pos; [by apply Qc_sub_pos|by apply Qcinv_pos]. }
  assert (Hmul : Qc_of_Z maxIndex * inc = mx - mn).
  { unfold inc. field. intros Hz. rewrite Hz in HM. by apply (Qclt_not_eq 0 0). }
  assert (Htop : mn + Qc_of_Z (maxIndex - 1) * inc < mx).
  { rewrite Z2Qc_inj_sub, Z2Qc_inj_1.
    replace (mn + (Qc_of_Z maxIndex - 1) * inc)
      with (mn + Qc_of_Z maxIndex * inc - inc) by ring.
    rewrite Hmul. replace (mn + (mx - mn) - inc) with (mx - inc) by ring.
    apply (Qcplus_lt_mono_r _ _ inc). replace (mx - inc + inc) with mx by ring.
    apply (Qcplus_lt_mono_l 0 inc mx) in Hinc. by rewrite Qcplus_0_r in Hinc. }
  pose proof (midi_normalization_table values 0 maxIndex mn mx Hmx Hmn ltac:(lia)
                (exact_indices_fit 0 maxIndex)) as Htable.
  rewrite Z.sub_0_r in Htable. fold (num_div (T:=Qc)) in Htable.
  change (num_div (num_sub mx mn) (num_of_int maxIndex)) with inc in Htable.
  set (thresholds := (fun i => num_add mn (num_mul (num_of_int i) inc))
                     <$> py_range 0 maxIndex) in Htable.
  assert (Hlen : length thresholds = Z.to_nat maxIndex).
  { unfold thresholds, py_range. by rewrite length_fmap, length_seqZ, Z.sub_0_r. }
  assert (Hall : Forall (fun t => t <= mn + Qc_of_Z (maxIndex - 1) * inc) thresholds).
  { apply Forall_forall. intros t Ht.
    apply list_elem_of_lookup in Ht as [k Hk].
    apply exact_table_lookup in Hk as [-> Hk].
    apply Qcplus_le_mono_l, Qcmult_le_mono_nonneg_r; [by apply Qclt_le_weak|].
    apply (proj1 (Z2Qc_inj_le _ _)). lia. }
  assert (Hnone : first_threshold_note mx thresholds 0 = None).
  { unfold first_threshold_note. apply fmap_None, list_find_None.
    eapply Forall_impl; [apply Hall|]. intros t Ht Hle. apply exact_le in Hle.
    eapply Qclt_not_le; [apply Htop|]. by eapply Qcle_trans. }
  exists mn, mx, thresholds. do 3 (split; [done|]).
  split; [|split; [done|split; [done|split; [done|]]]].
  - rewrite last_lookup, Hlen. apply exact_table_lookup. split; [|lia].
    do 3 f_equal. lia.
  - unfold convert_sequence. rewrite !convert_sequence_loop. simpl.
    symmetry. apply omap_filter_none. intros x Hx.
    destruct (decide (x = mx)) as [->|]; [done|]. by destruct Hx.
Qed.

Local Close Scope Qc_scope.

(** ** The scenario [[10.0, 20.0, 30.0]] and the rounding of doubles *)

(** C3, as amended: for the values [[10.0, 20.0, 30.0]] with
    [minIndex = 0] and [maxIndex = 2], [midi_normalization] returns the
    thresholds [[10.0, 20.0]] and [convert_sequence] then returns
    [[0, 1]]: 10 and 20 meet their own threshold, 30 is above both and
    contributes nothing. Exact arithmetic gives the same thresholds and
    indices. *)
Theorem scenario_thresholds_and_indices :
  midi_normalization (T:=float) [10; 20; 30]%float 0 2 = Ok [10; 20]%float
  /\ convert_sequence (T:=float) [10; 20; 30]%float [10; 20]%float 0 = [0; 1]
  /\ midi_normalization (T:=Qc) [Qc_of_Z 10; Qc_of_Z 20; Qc_of_Z 30] 0 2
     = Ok [Qc_of_Z 10; Qc_of_Z 20]
  /\ convert_sequence (T:=Qc) [Qc_of_Z 10; Qc_of_Z 20; Qc_of_Z 30]
       [Qc_of_Z 10; Qc_of_Z 20] 0 = [0; 1].
Proof.
  split; [vm_compute; reflexivity|]. split; [vm_compute; reflexivity|].
  split; [|vm_compute; reflexivity].
  assert (Hpair : forall a b c d : Qc, a = c -> b = d -> Ok [a; b] = Ok [c; d])
    by (by intros a b c d -> ->).
  vm_compute. apply Hpair; apply Qc_is_canon; reflexivity.
Qed.

(** C3, counterexample: the thresholds are not [[20.0, 30.0]], and the
    indices computed from the thresholds the code returns are not
    [[0, 0, 1]]. *)
Lemma scenario_as_stated_fails :
  midi_normalization (T:=float) [10; 20; 30]%float 0 2 <> Ok [20; 30]%float
  /\ forall thr, midi_normalization (T:=float) [10; 20; 30]%float 0 2 = Ok thr ->
       convert_sequence [10; 20; 30]%float thr 0 <> [0; 0; 1].
Proof.
  assert (Hthr : midi_normalization (T:=float) [10; 20; 30]%float 0 2
                 = Ok [10; 20]%float) by (vm_compute; reflexivity).
  rewrite Hthr. split.
  - intros Heq.
    apply (f_equal (fun r => match r with
                             | Ok (x :: _) => PrimFloat.eqb x 10
                             | _ => false
                             end)) in Heq.
    vm_compute in Heq. discriminate.
  - intros thr Heq. assert (thr = [10; 20]%float) as -> by congruence.
    vm_compute. discriminate.
Qed.

(** C4, counterexample: on doubles the increment of the values
    [[1.0, 1.0000000000000002]] over two notes is [2^-53 > 0], and both
    thresholds are 1.0: [1.0 + 1 * 2^-53] rounds back to 1.0. *)
Lemma thresholds_collapse_in_binary64 :
  midi_normalization (T:=float) [1%float; one_ulp_above_one] 0 2 = Ok [1; 1]%float
  /\ py_truediv_int (T:=float) (num_sub one_ulp_above_one 1%float) (2 - 0)
     = Ok 0x1p-53%float
  /\ num_lt (T:=float) 0%float 0x1p-53%float = true
  /\ ~ strictly_ascending (T:=float) [1; 1]%float.
Proof.
  split; [vm_compute; reflexivity|]. split; [vm_compute; reflexivity|].
  split; [vm_compute; reflexivity|].
  intros Hasc.
  specialize (Hasc 0%nat 1%nat 1%float 1%float ltac:(lia) eq_refl eq_refl).
  vm_compute in Hasc. discriminate.
Qed.

(** C10, counterexample: on doubles the last threshold of the values
    [[1.0000000000000002, 1.0000000000000004]] over two notes is the
    maximum itself ([min + 1 * 2^-53] is a tie and rounds up to it), and
    the position that holds the maximum gets the index 1. *)
Lemma maximum_bucketed_in_binary64 :
  py_max [one_ulp_above_one; two_ulp_above_one] = Ok two_ulp_above_one
  /\ midi_normalization (T:=float) [one_ulp_above_one; two_ulp_above_one] 0 2
     = Ok [one_ulp_above_one; two_ulp_above_one]
  /\ num_lt (T:=float) two_ulp_above_one two_ulp_above_one = false
  /\ convert_sequence (T:=float) [one_ulp_above_one; two_ulp_above_one]
       [one_ulp_above_one; two_ulp_above_one] 0 = [0; 1].
Proof. repeat split; vm_compute; reflexivity. Qed.

Lemma midi_normalization_thresholds_witness :
  (0 < length [Qc_of_Z 10; Qc_of_Z 20; Qc_of_Z 30])%nat /\ 0 < 2
  /\ exists thresholds,
       midi_normalization [Qc_of_Z 10; Qc_of_Z 20; Qc_of_Z 30] 0 2 = Ok thresholds
       /\ py_len thresholds = 2 - 0.
Proof.
  split; [simpl; lia|]. split; [lia|].
  destruct (midi_normalization_thresholds [Qc_of_Z 10; Qc_of_Z 20; Qc_of_Z 30] 0 2)
    as (lo_v & hi_v & thresholds & _ & _ & _ & _ & _ & Hnorm & Hlen & _);
    [simpl; lia|lia|].
  exists thresholds. split; [exact Hnorm|exact Hlen].
Defined.

Lemma maximum_never_bucketed_witness :
  exists hi_v thresholds,
    py_max [Qc_of_Z 10; Qc_of_Z 20; Qc_of_Z 30] = Ok hi_v
    /\ midi_normalization [Qc_of_Z 10; Qc_of_Z 20; Qc_of_Z 30] 0 2 = Ok thresholds
    /\ first_threshold_note hi_v thresholds 0 = None.
Proof.
  destruct (maximum_never_bucketed [Qc_of_Z 10; Qc_of_Z 20; Qc_of_Z 30] 2)
    as (lo_v & hi_v & thresholds & _ & Hmax & Hnorm & _ & _ & _ & Hnone & _).
  - simpl. lia.
  - lia.
  - exists (Qc_of_Z 10), (Qc_of_Z 20).
    split; [apply list_elem_of_here|].
    split; [apply list_elem_of_further, list_elem_of_here|].
    intros Heq. apply Z2Qc_inj in Heq. lia.
  - exists hi_v, thresholds. split; [exact Hmax|]. split; [exact Hnorm|exact Hnone].
Defined.

(** ** Reading the table *)

Lemma result_bind_assoc {A B C} (m : result A) (f : A -> result B) (g : B -> result C) :
  (m ≫= f) ≫= g = m ≫= (fun a => f a ≫= g).
Proof. by destruct m. Qed.

Lemma mapM_result_app {A B} (f : A -> result B) (l1 l2 : list A) :
  mapM f (l1 ++ l2) =
  mapM f l1 ≫= (fun xs => mapM f l2 ≫= (fun ys => Ok (xs ++ ys))).
Proof.
  induction l1 as [|x l1 IH]; simpl.
  - by destruct (mapM f l2).
  - destruct (f x) as [y|e]; simpl; [|done]. rewrite IH.
    destruct (mapM f l1) as [xs|e]; simpl; [|done].
    by destruct (mapM f l2).
Qed.

Section Reader.
Context {T : Type} `{Number T}.
Variable float_of_str : string -> result T.

(** The cells the loop over one row keeps when its first cell has the
    column number [c]. *)
Let cells_from (c : Z) (row : list string) : list string :=
  filter (fun cell => cell <> missing)
    (take (Z.to_nat (14 - Z.max c 1)) (drop (Z.to_nat (1 - c)) row)).

Lemma read_row_loop (row : list string) (c : Z) (acc : list T) :
  0 <= c ->
  for_enumerate (read_row_body float_of_str) c row acc =
  mapM float_of_str (cells_from c row) ≫= (fun xs => Ok (acc ++ xs)).
Proof.
  revert c acc. induction row as [|x row IH]; intros c acc Hc.
  - unfold cells_from. rewrite drop_nil, take_nil. simpl. by rewrite app_nil_r.
  - cbn [for_enumerate].
    set (rest := for_enumerate (read_row_body float_of_str) (c + 1) row).
    assert (Hrest : forall acc', rest acc' =
              mapM float_of_str (cells_from (c + 1) row)
                ≫= (fun xs => Ok (acc' ++ xs))) by (intros; apply IH; lia).
    clearbody rest. unfold read_row_body.
    destruct (Z.leb_spec 1 c) as [H1|H1]; cbn [andb].
    + destruct (Z.ltb_spec c 14) as [H14|H14].
      * assert (Hcells : cells_from c (x :: row)
                         = filter (fun cell => cell <> missing)
                             (x :: take (Z.to_nat (14 - Z.max (c + 1) 1))
                                     (drop (Z.to_nat (1 - (c + 1))) row))).
        { unfold cells_from.
          replace (Z.to_nat (1 - c)) with 0%nat by lia.
          replace (Z.to_nat (1 - (c + 1))) with 0%nat by lia.
          replace (Z.to_nat (14 - Z.max c 1))
            with (S (Z.to_nat (14 - Z.max (c + 1) 1))) by lia.
          done. }
        rewrite Hcells. destruct (String.eqb_spec x missing) as [Hx|Hx]; cbn [negb].
        -- rewrite filter_cons_False by (by intros []).
           by rewrite bind_ok, Hrest.
        -- rewrite filter_cons_True by done. cbn [mapM].
           destruct (float_of_str x) as [y|e]; [|done].
           rewrite !bind_ok, Hrest. fold (cells_from (c + 1) row).
           destruct (mapM float_of_str (cells_from (c + 1) row)) as [ys|e]; [|done].
           simpl. by rewrite <- app_assoc.
      * rewrite bind_ok, Hrest. unfold cells_from.
        replace (Z.to_nat (14 - Z.max (c + 1) 1)) with 0%nat by lia.
        by replace (Z.to_nat (14 - Z.max c 1)) with 0%nat by lia.
    + rewrite bind_ok, Hrest. unfold cells_from.
      replace (Z.to_nat (1 - c)) with 1%nat by lia.
      replace (Z.to_nat (1 - (c + 1))) with 0%nat by lia.
      replace (Z.max (c + 1) 1) with 1 by lia.
      by replace (Z.max c 1) with 1 by lia.
Qed.

Lemma read_rows_loop (rows : list (list string)) (n : Z) (acc : list T) :
  0 <= n ->
  for_enumerate (read_rows_body float_of_str) n rows acc =
  mapM float_of_str (concat (cells_in_window 1 14 <$> drop (Z.to_nat (2 - n)) rows))
    ≫= (fun xs => Ok (acc ++ xs)).
Proof.
  revert n acc. induction rows as [|row rows IH]; intros n acc Hn.
  - rewrite drop_nil. simpl. by rewrite app_nil_r.
  - cbn [for_enumerate].
    set (rest := for_enumerate (read_rows_body float_of_str) (n + 1) rows).
    assert (Hrest : forall acc', rest acc' =
              mapM float_of_str
                (concat (cells_in_window 1 14 <$> drop (Z.to_nat (2 - (n + 1))) rows))
                ≫= (fun xs => Ok (acc' ++ xs))) by (intros; apply IH; lia).
    clearbody rest. unfold read_rows_body.
    destruct (Z.gtb_spec n 1) as [Hgt|Hle].
    + replace (Z.to_nat (2 - n)) with 0%nat by lia.
      replace (Z.to_nat (2 - (n + 1))) with 0%nat in Hrest by lia.
      rewrite read_row_loop by lia. cbn [drop fmap list_fmap concat].
      replace (cells_from 0 row) with (cells_in_window 1 14 row) by done.
      rewrite mapM_result_app, !result_bind_assoc.
      destruct (mapM float_of_str (cells_in_window 1 14 row)) as [xs|e]; [|done].
      rewrite !bind_ok, Hrest. cbn [drop].
      destruct (mapM float_of_str _) as [ys|e]; [|done].
      simpl. by rewrite <- app_assoc.
    + rewrite bind_ok, Hrest.
      by replace (Z.to_nat (2 - n)) with (S (Z.to_nat (2 - (n + 1)))) by lia.
Qed.


(** ** Dispatch *)

(** C6: an unrecognised mode selector makes [set_mode] call the string
    ["invalid mode"], which raises [TypeError]; no file is written, and
    nothing reaches the MIDI library, whatever that library would do. *)
Theorem set_mode_unrecognized (write_track : string -> midi_file -> io unit)
    (mode : Z) (temperature_data output_midi_file_name : string)
    (bpm volume midi_note_min midi_note_max : Z) (w : world) :
  mode < 0 \/ 3 < mode ->
  set_mode float_of_str write_track mode temperature_data output_midi_file_name
    bpm volume midi_note_min midi_note_max w = (Raise TypeError, w).
Proof.
  intros Hmode. unfold set_mode, dict_get, mode_switch.
  rewrite !lookup_insert_ne, lookup_singleton_ne by lia. reflexivity.
Qed.
End Reader.



Lemma set_mode_unrecognized_witness :
  (5 < 0 \/ 3 < 5)
  /\ set_mode (T:=float) float_of_digits store_track 5 "t.csv" "just_warming_up"
       120 100 0 127 sample_world = (Raise TypeError, sample_world).
Proof.
  split; [lia|].
  apply (set_mode_unrecognized float_of_digits store_track 5). lia.
Defined.

(** ** Further properties of the pipeline *)

(** X1: in every arithmetic, doubles included, for a non-empty list and
    [maxIndex > minIndex]: when every [int] the function converts, the
    number of notes and the loop indices, can be converted,
    [midi_normalization] returns [maxIndex - minIndex] thresholds, the
    [k]-th being [min + (minIndex + k) * increment] computed with the
    operations of that arithmetic; otherwise it raises [OverflowError]. *)
Theorem midi_normalization_any_arithmetic {T : Type} `{Number T}
    (values : list T) (minIndex maxIndex : Z) :
  (0 < length values)%nat -> minIndex < maxIndex ->
  exists lo_v hi_v,
    py_min values = Ok lo_v /\ py_max values = Ok hi_v
    /\ if indices_fit minIndex maxIndex then
         exists thresholds,
           midi_normalization values minIndex maxIndex = Ok thresholds
           /\ py_len thresholds = maxIndex - minIndex
           /\ forall k : nat, Z.of_nat k < maxIndex - minIndex ->
                thresholds !! k =
                  Some (num_add lo_v
                          (num_mul (num_of_int (minIndex + Z.of_nat k))
                             (num_div (num_sub hi_v lo_v)
                                (num_of_int (maxIndex - minIndex)))))
       else midi_normalization values minIndex maxIndex = Raise OverflowError.
Proof.
  intros Hne Hidx. destruct values as [|x rest]; [simpl in Hne; lia|].
  eexists _, _. split; [reflexivity|]. split; [reflexivity|].
  rewrite (midi_normalization_run (x :: rest) minIndex maxIndex _ _ eq_refl eq_refl).
  unfold indices_fit. destruct (num_int_fits (maxIndex - minIndex)); [|done].
  destruct (Z.eqb_spec (maxIndex - minIndex) 0) as [|_]; [lia|].
  destruct (forallb num_int_fits (py_range minIndex maxIndex)); [|done].
  cbn [andb]. eexists. split; [reflexivity|]. split.
  - unfold py_len, py_range. rewrite length_fmap, length_seqZ. lia.
  - intros k Hk. unfold py_range. rewrite list_lookup_fmap, lookup_seqZ_lt by done.
    reflexivity.
Qed.

Lemma midi_normalization_any_arithmetic_witness :
  (0 < length [10; 20; 30]%float)%nat /\ 0 < 2
  /\ exists thresholds,
       midi_normalization (T:=float) [10; 20; 30]%float 0 2 = Ok thresholds
       /\ py_len thresholds = 2 - 0.
Proof.
  split; [simpl; lia|]. split; [lia|].
  destruct (midi_normalization_any_arithmetic [10; 20; 30]%float 0 2)
    as (lo_v & hi_v & _ & _ & Hrun); [simpl; lia|lia|].
  change (indices_fit (T:=float) 0 2) with true in Hrun.
  destruct Hrun as (thresholds & Hnorm & Hlen & _).
  exists thresholds. split; [exact Hnorm|exact Hlen].
Defined.

(** On doubles, a note number past the largest double stops the
    normalisation with [OverflowError], at the first [i * increment]. *)
Lemma midi_normalization_overflow :
  midi_normalization (T:=float) [1; 2]%float (2 ^ 1024) (2 ^ 1024 + 1)
  = Raise OverflowError.
Proof. vm_compute. reflexivity. Qed.

(** X2: a step that is at least the length of the list leaves no mean to
    hand out: the result is empty (also when the step equals the length
    and the single window is complete). *)
Theorem step_average_step_beyond_length {T : Type} `{Number T}
    (s : list T) (step : Z) :
  1 <= step -> py_len s <= step -> step_average s step = Ok [].
Proof.
  intros Hstep Hlen. rewrite step_average_followed by done. f_equal.
  unfold followed_window_means.
  assert ((py_len s - 1) / step <= 0) as Hq.
  { apply Z.lt_succ_r, Z.div_lt_upper_bound; lia. }
  by replace (Z.to_nat ((py_len s - 1) / step)) with 0%nat by lia.
Qed.

Lemma step_average_step_beyond_length_witness :
  1 <= 4 /\ py_len [1; 2; 3; 4]%float <= 4
  /\ step_average (T:=float) [1; 2; 3; 4]%float 4 = Ok [].
Proof.
  split; [lia|]. split; [vm_compute; discriminate|].
  apply (step_average_step_beyond_length [1; 2; 3; 4]%float 4);
    [lia|vm_compute; discriminate].
Defined.

(** X3: when [maxIndex <= minIndex], [midi_normalization] checks nothing
    itself: an empty list raises the [ValueError] of [max]; otherwise the
    number of notes is converted, which raises [OverflowError] when it is
    too large for the arithmetic, equal indices raise the
    [ZeroDivisionError] of the division, and [maxIndex < minIndex] returns
    an empty table. *)
Theorem midi_normalization_degenerate_range {T : Type} `{Number T}
    (values : list T) (minIndex maxIndex : Z) :
  maxIndex <= minIndex ->
  midi_normalization values minIndex maxIndex =
    match values with
    | [] => Raise ValueError
    | _ :: _ =>
        if num_int_fits (maxIndex - minIndex) then
          if maxIndex =? minIndex then Raise ZeroDivisionError else Ok []
        else Raise OverflowError
    end.
Proof.
  intros Hidx. destruct values as [|x rest]; [reflexivity|].
  rewrite (midi_normalization_run (x :: rest) minIndex maxIndex _ _ eq_refl eq_refl).
  destruct (num_int_fits (maxIndex - minIndex)); [|done].
  destruct (Z.eqb_spec (maxIndex - minIndex) 0) as [Hz|Hnz];
    destruct (Z.eqb_spec maxIndex minIndex) as [Heq|Hne]; try lia; [done|].
  unfold py_range. by rewrite seqZ_nil by lia.
Qed.

Lemma midi_normalization_degenerate_range_witness :
  2 <= 2 /\ midi_normalization (T:=float) [10; 20; 30]%float 2 2
            = Raise ZeroDivisionError.
Proof.
  split; [lia|].
  exact (midi_normalization_degenerate_range [10; 20; 30]%float 2 2 ltac:(lia)).
Defined.

Lemma create_midi_loop (track channel volume duration : Z) (sequence : list Z)
    (music : midi_file) (time : Z) :
  fold_left
    (fun '(music, time) pitch =>
       ({| midi_tempo := midi_tempo music;
           midi_notes := midi_notes music ++
             [{| note_track := track; note_channel := channel;
                 note_pitch := pitch; note_time := time * duration;
                 note_duration := duration; note_volume := volume |}] |},
        time + 1))
    sequence (music, time)
  = ({| midi_tempo := midi_tempo music;
        midi_notes := midi_notes music ++
          imap (fun position pitch =>
                  {| note_track := track; note_channel := channel;
                     note_pitch := pitch;
                     note_time := (time + Z.of_nat position) * duration;
                     note_duration := duration; note_volume := volume |})
            sequence |},
     time + py_len sequence).
Proof.
  revert music time. induction sequence as [|pitch rest IH]; intros music time.
  - unfold py_len. simpl. rewrite app_nil_r, Z.add_0_r. by destruct music.
  - cbn [fold_left]. rewrite IH. cbn [midi_tempo midi_notes imap].
    rewrite <- app_assoc. cbn [app]. rewrite Z.add_0_r. f_equal.
    + f_equal. f_equal. f_equal. apply imap_ext. intros i p _. simpl.
      do 2 f_equal. lia.
    + unfold py_len. simpl length. lia.
Qed.

(** X4: [create_midi] hands the MIDI library, once, the file name and a
    track with one tempo event at time 0 and one note per element of the
    sequence, in order: the note at position [p] has that element as its
    pitch, starts at [p * duration], and has the given duration and
    volume. What becomes of the call is what the library makes of that
    track. *)
Theorem create_midi_hands_over_track (write_track : string -> midi_file -> io unit)
    (sequence : list Z) (tempo volume : Z) (file_name : string) (duration : Z)
    (w : world) :
  create_midi write_track sequence tempo volume file_name duration w =
    write_track file_name
      {| midi_tempo := [(0, 0, tempo)];
         midi_notes :=
           imap (fun position pitch =>
                   {| note_track := 0; note_channel := 0;
                      note_pitch := pitch;
                      note_time := Z.of_nat position * duration;
                      note_duration := duration;
                      note_volume := volume |})
             sequence |} w.
Proof.
  unfold create_midi. rewrite create_midi_loop. cbn [midi_tempo midi_notes app].
  do 2 f_equal.
Qed.

(** X5: the selectors 0, 1, 2 and 3 run the monthly, the yearly, the decade
    pipeline and all three in turn. *)
Theorem set_mode_dispatch {T : Type} `{Number T} (float_of_str : string -> result T)
    (write_track : string -> midi_file -> io unit) :
  set_mode float_of_str write_track 0
    = create_monthly_sequence float_of_str write_track
  /\ set_mode float_of_str write_track 1
     = create_yearly_sequence float_of_str write_track
  /\ set_mode float_of_str write_track 2
     = create_decade_sequence float_of_str write_track
  /\ set_mode float_of_str write_track 3
     = create_all_sequences float_of_str write_track.
Proof.
  unfold set_mode, dict_get.
  split; [reflexivity|]. split; [reflexivity|]. split; reflexivity.
Qed.

(** ** Averages in exact arithmetic *)

Local Open Scope Qc_scope.

Lemma fold_left_Qcplus (l : list Qc) (acc : Qc) :
  fold_left Qcplus l acc = acc + foldr Qcplus 0 l.
Proof.
  revert acc. induction l as [|x l IH]; intros acc; simpl; [ring|].
  rewrite IH. ring.
Qed.

Lemma py_sum_exact (l : list Qc) : py_sum l = foldr Qcplus 0 l.
Proof.
  unfold py_sum. cbn [num_add num_of_int exact].
  rewrite fold_left_Qcplus, Z2Qc_inj_0. ring.
Qed.

Lemma py_len_cons {A} (x : A) (l : list A) : py_len (x :: l) = (py_len l + 1)%Z.
Proof. unfold py_len. simpl length. lia. Qed.

Lemma sum_between (l : list Qc) (lo hi : Qc) :
  (forall v, v ∈ l -> lo <= v <= hi) ->
  Qc_of_Z (py_len l) * lo <= foldr Qcplus 0 l <= Qc_of_Z (py_len l) * hi.
Proof.
  induction l as [|x l IH]; intros Hall.
  - change (py_len (@nil Qc)) with 0%Z. rewrite Z2Qc_inj_0, !Qcmult_0_l.
    split; apply Qcle_refl.
  - destruct IH as [IHlo IHhi]; [intros v Hv; by apply Hall, list_elem_of_further|].
    destruct (Hall x (list_elem_of_here _ _)) as [Hlo Hhi].
    rewrite py_len_cons, Z2Qc_inj_add, Z2Qc_inj_1. simpl. split.
    + replace ((Qc_of_Z (py_len l) + 1) * lo) with (lo + Qc_of_Z (py_len l) * lo)
        by ring.
      by apply Qcplus_le_compat.
    + replace ((Qc_of_Z (py_len l) + 1) * hi) with (hi + Qc_of_Z (py_len l) * hi)
        by ring.
      by apply Qcplus_le_compat.
Qed.

Lemma py_len_pos_exact {A} (l : list A) : (0 < length l)%nat -> 0 < Qc_of_Z (py_len l).
Proof.
  intros Hl. rewrite <- Z2Qc_inj_0. apply (proj1 (Z2Qc_inj_lt _ _)). unfold py_len. lia.
Qed.

Lemma mean_times_length (l : list Qc) :
  (0 < length l)%nat -> mean l * Qc_of_Z (py_len l) = foldr Qcplus 0 l.
Proof.
  intros Hl. unfold mean. cbn [num_div num_of_int exact]. rewrite py_sum_exact.
  field. intros Hz. pose proof (py_len_pos_exact l Hl) as Hpos.
  rewrite Hz in Hpos. by apply (Qclt_not_eq 0 0).
Qed.

(** X6: in exact arithmetic the average of a non-empty list lies between
    the least and the greatest element of the list. *)
Theorem get_list_average_between (l : list Qc) :
  (0 < length l)%nat ->
  exists m lo_v hi_v,
    get_list_average l = Ok m /\ py_min l = Ok lo_v /\ py_max l = Ok hi_v
    /\ lo_v <= m <= hi_v.
Proof.
  intros Hl.
  destruct (py_min_max_exact l Hl) as (mn & mx & Hmn & Hmx & _ & _ & Hbound).
  exists (mean l), mn, mx.
  split; [apply get_list_average_nonempty; by destruct l|]. do 2 (split; [done|]).
  pose proof (py_len_pos_exact l Hl) as Hpos.
  destruct (sum_between l mn mx Hbound) as [Hlo Hhi].
  rewrite <- (mean_times_length l Hl) in Hlo, Hhi.
  rewrite (Qcmult_comm (Qc_of_Z (py_len l)) mn) in Hlo.
  rewrite (Qcmult_comm (Qc_of_Z (py_len l)) mx) in Hhi.
  split; by eapply Qcmult_le_mono_pos_r.
Qed.

Lemma get_list_average_between_witness :
  (0 < length [Qc_of_Z 1; Qc_of_Z 2; Qc_of_Z 6])%nat
  /\ exists m lo_v hi_v,
       get_list_average [Qc_of_Z 1; Qc_of_Z 2; Qc_of_Z 6] = Ok m
       /\ py_min [Qc_of_Z 1; Qc_of_Z 2; Qc_of_Z 6] = Ok lo_v
       /\ py_max [Qc_of_Z 1; Qc_of_Z 2; Qc_of_Z 6] = Ok hi_v
       /\ lo_v <= m <= hi_v.
Proof.
  split; [simpl; lia|].
  apply (get_list_average_between [Qc_of_Z 1; Qc_of_Z 2; Qc_of_Z 6]). simpl. lia.
Defined.

Lemma sum_affine (a c : Qc) (l : list Qc) :
  foldr Qcplus 0 ((fun v => a * v + c) <$> l)
  = a * foldr Qcplus 0 l + Qc_of_Z (py_len l) * c.
Proof.
  induction l as [|x l IH].
  - change (py_len (@nil Qc)) with 0%Z. rewrite Z2Qc_inj_0. simpl. ring.
  - rewrite py_len_cons, Z2Qc_inj_add, Z2Qc_inj_1. cbn [fmap list_fmap foldr].
    change (list_fmap Qc Qc (fun v => a * v + c) l) with ((fun v => a * v + c) <$> l).
    rewrite IH. ring.
Qed.

Lemma mean_affine (a c : Qc) (l : list Qc) :
  (0 < length l)%nat -> mean ((fun v => a * v + c) <$> l) = a * mean l + c.
Proof.
  intros Hl. pose proof (py_len_pos_exact l Hl) as Hpos.
  assert (Hnz : Qc_of_Z (py_len l) <> 0).
  { intros Hz. rewrite Hz in Hpos. by apply (Qclt_not_eq 0 0). }
  unfold mean. cbn [num_div num_of_int exact]. rewrite !py_sum_exact, sum_affine.
  unfold py_len. rewrite length_fmap. fold (py_len l).
  field. done.
Qed.

Lemma followed_window_means_affine (a c : Qc) (s : list Qc) (step : Z) :
  (1 <= step)%Z ->
  followed_window_means ((fun v => a * v + c) <$> s) step
  = (fun v => a * v + c) <$> followed_window_means s step.
Proof.
  intros Hstep. unfold followed_window_means.
  unfold py_len. rewrite length_fmap, <- list_fmap_compose.
  apply Forall_fmap_ext, Forall_seq. intros k Hk. simpl.
  unfold window. rewrite <- fmap_drop, <- fmap_take. apply mean_affine.
  rewrite length_take, length_drop.
  pose proof (Z.mul_div_le (Z.of_nat (length s) - 1) step ltac:(lia)) as Hq.
  assert (0 < (Z.of_nat (length s) - 1) / step)%Z by lia.
  assert (Z.of_nat k + 1 <= (Z.of_nat (length s) - 1) / step)%Z by lia.
  assert (Z.of_nat k * step < Z.of_nat (length s))%Z by nia.
  assert (Z.of_nat (k * Z.to_nat step) < Z.of_nat (length s))%Z
    by (rewrite Nat2Z.inj_mul, Z2Nat.id; lia).
  lia.
Qed.

(** X7: in exact arithmetic block averaging commutes with a change of unit
    [v -> a * v + c]: averaging the converted readings gives the converted
    averages. *)
Theorem step_average_affine (a c : Qc) (s : list Qc) (step : Z) :
  (1 <= step)%Z ->
  exists r, step_average s step = Ok r
    /\ step_average ((fun v => a * v + c) <$> s) step
       = Ok ((fun v => a * v + c) <$> r).
Proof.
  intros Hstep. exists (followed_window_means s step).
  rewrite !step_average_followed by done.
  split; [done|]. by rewrite followed_window_means_affine.
Qed.

Lemma step_average_affine_witness :
  (1 <= 2)%Z
  /\ exists r, step_average [Qc_of_Z 1; Qc_of_Z 3; Qc_of_Z 7] 2 = Ok r
       /\ step_average
            ((fun v => Qc_of_Z 2 * v + Qc_of_Z 32) <$> [Qc_of_Z 1; Qc_of_Z 3; Qc_of_Z 7]) 2
          = Ok ((fun v => Qc_of_Z 2 * v + Qc_of_Z 32) <$> r).
Proof.
  split; [lia|].
  apply (step_average_affine (Qc_of_Z 2) (Qc_of_Z 32)
           [Qc_of_Z 1; Qc_of_Z 3; Qc_of_Z 7] 2). lia.
Defined.

Local Close Scope Qc_scope.

(** ** More on bucketing *)

Section ConvertSequenceStructure.
Context {T : Type} `{Number T}.

Lemma convert_sequence_omap (values thresholds : list T) (lo : Z) :
  convert_sequence values thresholds lo
  = omap (fun v => first_threshold_note v thresholds lo) values.
Proof. unfold convert_sequence. by rewrite convert_sequence_loop. Qed.

Lemma length_omap_le {A B} (f : A -> option B) (l : list A) :
  (length (omap f l) <= length l)%nat.
Proof.
  induction l as [|x l IH]; [done|]. csimpl. destruct (f x); simpl; lia.
Qed.


Lemma first_threshold_note_offset (v : T) (thresholds : list T) (lo : Z) :
  first_threshold_note v thresholds lo
  = (fun n => n + lo) <$> first_threshold_note v thresholds 0.
Proof.
  unfold first_threshold_note. rewrite <- option_fmap_compose.
  apply option_fmap_ext. intros [p t]. simpl. lia.
Qed.

(** A threshold that is [>=] the value guarantees a note, at that position
    or before. *)
Lemma first_threshold_note_before (v : T) (thresholds : list T) (lo : Z)
    (k : nat) (t : T) :
  thresholds !! k = Some t -> num_le v t = true ->
  exists n, first_threshold_note v thresholds lo = Some n
    /\ lo <= n <= Z.of_nat k + lo.
Proof.
  intros Hk Hle.
  pose proof (first_threshold_note_spec v thresholds lo) as Hspec.
  destruct (first_threshold_note v thresholds lo) as [n|].
  - destruct Hspec as (p & u & -> & _ & _ & Hbefore). eexists. split; [done|].
    destruct (decide (p <= k)%nat) as [|Hgt]; [lia|].
    rewrite (Hbefore k t) in Hle by (done || lia). done.
  - rewrite (Hspec t) in Hle; [done|]. by eapply list_elem_of_lookup_2.
Qed.

(** X8: [convert_sequence] treats the values one by one: over a
    concatenation of values it returns the concatenation of the results, its
    result is never longer than its input, and [midi_note_min] only shifts
    every index it hands out. *)
Theorem convert_sequence_structure (values more thresholds : list T) (lo : Z) :
  convert_sequence (values ++ more) thresholds lo
    = convert_sequence values thresholds lo ++ convert_sequence more thresholds lo
  /\ (length (convert_sequence values thresholds lo) <= length values)%nat
  /\ convert_sequence values thresholds lo
     = (fun n => n + lo) <$> convert_sequence values thresholds 0.
Proof.
  rewrite !convert_sequence_omap. split; [apply omap_app|].
  split; [apply length_omap_le|].
  rewrite list_fmap_omap. apply list_omap_ext, Forall2_same_length_lookup.
  split; [done|]. intros i v w Hv Hw. assert (v = w) as -> by congruence.
  apply first_threshold_note_offset.
Qed.
End ConvertSequenceStructure.

Local Open Scope Qc_scope.

Lemma convert_sequence_single {T : Type} `{Number T} (v : T) (thresholds : list T)
    (lo : Z) :
  convert_sequence [v] thresholds lo
  = match first_threshold_note v thresholds lo with
    | Some n => [n]
    | None => []
    end.
Proof.
  rewrite convert_sequence_omap. csimpl.
  by destruct (first_threshold_note v thresholds lo).
Qed.

(** X9: in exact arithmetic the bucketing keeps the order of the values:
    when a value gets an index, every smaller value gets one too, and it is
    not larger. *)
Theorem convert_sequence_monotone (v w : Qc) (thresholds : list Qc) (lo nw : Z) :
  v <= w -> convert_sequence [w] thresholds lo = [nw] ->
  exists nv, convert_sequence [v] thresholds lo = [nv] /\ (nv <= nw)%Z.
Proof.
  intros Hvw Hw. rewrite convert_sequence_single in Hw.
  pose proof (first_threshold_note_spec w thresholds lo) as Hspec.
  destruct (first_threshold_note w thresholds lo) as [n|]; [|done].
  assert (n = nw) as -> by congruence.
  destruct Hspec as (p & t & -> & Hp & Hle & _).
  destruct (first_threshold_note_before v thresholds lo p t Hp) as (nv & Hnv & Hbound).
  { apply exact_le. apply exact_le in Hle. by eapply Qcle_trans. }
  exists nv. rewrite convert_sequence_single, Hnv. split; [done|lia].
Qed.

Lemma convert_sequence_monotone_witness :
  Qc_of_Z 12 <= Qc_of_Z 17
  /\ convert_sequence [Qc_of_Z 17] [Qc_of_Z 10; Qc_of_Z 15; Qc_of_Z 20] 0 = [2%Z]
  /\ exists nv,
       convert_sequence [Qc_of_Z 12] [Qc_of_Z 10; Qc_of_Z 15; Qc_of_Z 20] 0 = [nv]
       /\ (nv <= 2)%Z.
Proof.
  assert (Hle : Qc_of_Z 12 <= Qc_of_Z 17)
    by (apply (proj1 (Z2Qc_inj_le 12 17)); lia).
  assert (Hw : convert_sequence [Qc_of_Z 17] [Qc_of_Z 10; Qc_of_Z 15; Qc_of_Z 20] 0
               = [2%Z]) by (vm_compute; reflexivity).
  split; [exact Hle|]. split; [exact Hw|].
  exact (convert_sequence_monotone (Qc_of_Z 12) (Qc_of_Z 17)
           [Qc_of_Z 10; Qc_of_Z 15; Qc_of_Z 20] 0 2 Hle Hw).
Defined.

Local Close Scope Qc_scope.

(** ** Normalisation and bucketing together, in exact arithmetic *)

Local Open Scope Qc_scope.

(** What [midi_normalization] computes on a non-empty list when
    [maxIndex > minIndex]: the increment is not negative, and
    [maxIndex - minIndex] increments make up the range. *)
Lemma exact_normalization (values : list Qc) (lo hi : Z) :
  (0 < length values)%nat -> (lo < hi)%Z ->
  exists mn mx inc,
    py_min values = Ok mn /\ py_max values = Ok mx
    /\ mn ∈ values /\ mx ∈ values
    /\ (forall v, v ∈ values -> mn <= v <= mx)
    /\ 0 <= inc /\ Qc_of_Z (hi - lo) * inc = mx - mn
    /\ midi_normalization values lo hi
       = Ok ((fun i => num_add mn (num_mul (num_of_int i) inc)) <$> py_range lo hi).
Proof.
  intros Hne Hidx.
  destruct (py_min_max_exact values Hne)
    as (mn & mx & Hmn & Hmx & Hmn_in & Hmx_in & Hbound).
  assert (Hd : 0 < Qc_of_Z (hi - lo)).
  { rewrite <- Z2Qc_inj_0. apply (proj1 (Z2Qc_inj_lt _ _)). lia. }
  exists mn, mx, ((mx - mn) / Qc_of_Z (hi - lo)).
  do 5 (split; [done|]). split; [|split].
  - apply Qcmult_nonneg_nonneg; [|by apply Qclt_le_weak, Qcinv_pos].
    apply (Qcplus_le_mono_r 0 (mx - mn) mn).
    replace (0 + mn) with mn by ring. replace (mx - mn + mn) with mx by ring.
    apply (Hbound mn Hmn_in).
  - field. intros Hz. rewrite Hz in Hd. by apply (Qclt_not_eq 0 0).
  - exact (midi_normalization_table values lo hi mn mx Hmx Hmn ltac:(lia)
             (exact_indices_fit lo hi)).
Qed.

(** X10: in exact arithmetic, with [0 <= minIndex < maxIndex], the least
    value of a non-empty list always gets the lowest index, [minIndex]. *)
Theorem minimum_gets_lowest_note (values : list Qc) (minIndex maxIndex : Z) :
  (0 < length values)%nat -> (0 <= minIndex < maxIndex)%Z ->
  exists lo_v thresholds,
    py_min values = Ok lo_v
    /\ midi_normalization values minIndex maxIndex = Ok thresholds
    /\ convert_sequence [lo_v] thresholds minIndex = [minIndex].
Proof.
  intros Hne Hidx.
  destruct (exact_normalization values minIndex maxIndex Hne ltac:(lia))
    as (mn & mx & inc & Hmn & _ & _ & _ & _ & Hinc & _ & Hnorm).
  eexists mn, _. split; [done|]. split; [exact Hnorm|].
  rewrite convert_sequence_single.
  edestruct (first_threshold_note_before mn) as (n & -> & Hn).
  - apply (proj2 (exact_table_lookup mn inc minIndex maxIndex 0 _)).
    split; [reflexivity|simpl; lia].
  - apply exact_le. replace mn with (mn + 0) at 1 by ring. apply Qcplus_le_mono_l.
    apply Qcmult_nonneg_nonneg; [|done].
    rewrite <- Z2Qc_inj_0. apply (proj1 (Z2Qc_inj_le _ _)). lia.
  - f_equal. simpl in Hn. lia.
Qed.

Lemma minimum_gets_lowest_note_witness :
  (0 < length [Qc_of_Z 10; Qc_of_Z 20; Qc_of_Z 30])%nat /\ (0 <= 24 < 96)%Z
  /\ exists lo_v thresholds,
       py_min [Qc_of_Z 10; Qc_of_Z 20; Qc_of_Z 30] = Ok lo_v
       /\ midi_normalization [Qc_of_Z 10; Qc_of_Z 20; Qc_of_Z 30] 24 96 = Ok thresholds
       /\ convert_sequence [lo_v] thresholds 24 = [24%Z].
Proof.
  split; [simpl; lia|]. split; [lia|].
  apply (minimum_gets_lowest_note [Qc_of_Z 10; Qc_of_Z 20; Qc_of_Z 30] 24 96);
    [simpl; lia|lia].
Defined.



Local Close Scope Qc_scope.

(** ** What the notes do not depend on *)

Lemma scan_increments_fmap {T : Type} `{Number T} (f : T -> T) (t : T)
    (increments : list T) (num lo : Z) :
  (forall x y, num_le (f x) (f y) = num_le x y) ->
  scan_increments (f t) (f <$> increments) num lo
  = scan_increments t increments num lo.
Proof.
  intros Hf. revert num. induction increments as [|i rest IH]; intros num; [done|].
  cbn [fmap list_fmap scan_increments]. rewrite Hf.
  destruct (num_le t i); [done|]. apply IH.
Qed.

Lemma convert_sequence_fmap {T : Type} `{Number T} (f : T -> T)
    (values thresholds : list T) (lo : Z) :
  (forall x y, num_le (f x) (f y) = num_le x y) ->
  convert_sequence (f <$> values) (f <$> thresholds) lo
  = convert_sequence values thresholds lo.
Proof.
  intros Hf. rewrite !convert_sequence_omap.
  induction values as [|v values IH]; [done|]. csimpl.
  rewrite <- !scan_increments_note, scan_increments_fmap by done.
  rewrite !scan_increments_note.
  destruct (first_threshold_note v thresholds lo); by rewrite IH.
Qed.

Local Open Scope Qc_scope.

Lemma py_min_max_unique (values : list Qc) (mn mx : Qc) :
  mn ∈ values -> mx ∈ values -> (forall v, v ∈ values -> mn <= v <= mx) ->
  py_min values = Ok mn /\ py_max values = Ok mx.
Proof.
  intros Hmn_in Hmx_in Hbound.
  destruct (py_min_max_exact values) as (mn' & mx' & -> & -> & Hmn' & Hmx' & Hbound').
  { destruct values; [by apply elem_of_nil in Hmn_in|simpl; lia]. }
  split; f_equal; apply Qcle_antisym;
    first [apply (Hbound' _ Hmn_in) | apply (Hbound' _ Hmx_in)
          | apply (Hbound _ Hmn') | apply (Hbound _ Hmx')].
Qed.

(** X12: in exact arithmetic the thresholds depend on the values only, not
    on their order: a rearranged list gives the same result, error
    included. *)
Theorem midi_normalization_permutation (values values' : list Qc)
    (minIndex maxIndex : Z) :
  values ≡ₚ values' ->
  midi_normalization values minIndex maxIndex
  = midi_normalization values' minIndex maxIndex.
Proof.
  intros Hperm. destruct values as [|x rest].
  { apply Permutation_nil_l in Hperm. by subst. }
  destruct (py_min_max_exact (x :: rest))
    as (mn & mx & Hmn & Hmx & Hmn_in & Hmx_in & Hbound); [simpl; lia|].
  destruct (py_min_max_unique values' mn mx) as [Hmn' Hmx'].
  - by rewrite <- Hperm.
  - by rewrite <- Hperm.
  - intros v Hv. apply Hbound. by rewrite Hperm.
  - unfold midi_normalization. by rewrite Hmn, Hmx, Hmn', Hmx'.
Qed.

Lemma midi_normalization_permutation_witness :
  [Qc_of_Z 10; Qc_of_Z 30; Qc_of_Z 20] ≡ₚ [Qc_of_Z 30; Qc_of_Z 10; Qc_of_Z 20]
  /\ midi_normalization [Qc_of_Z 10; Qc_of_Z 30; Qc_of_Z 20] 0 2
     = midi_normalization [Qc_of_Z 30; Qc_of_Z 10; Qc_of_Z 20] 0 2.
Proof.
  split; [apply perm_swap|].
  apply (midi_normalization_permutation
           [Qc_of_Z 10; Qc_of_Z 30; Qc_of_Z 20] [Qc_of_Z 30; Qc_of_Z 10; Qc_of_Z 20]).
  apply perm_swap.
Defined.

Lemma affine_le (a c x y : Qc) :
  0 < a -> num_le (a * x + c) (a * y + c) = num_le x y.
Proof.
  intros Ha. cbn [num_le exact]. apply bool_decide_ext.
  rewrite <- Qcplus_le_mono_r. symmetry. by apply Qcmult_le_mono_pos_l.
Qed.

(** X13: in exact arithmetic the indices do not depend on the unit of the
    readings: after a change of unit [v -> a * v + c] with [a > 0] the
    thresholds are the converted thresholds, and [convert_sequence] returns
    the same indices. *)
Theorem notes_invariant_under_unit_change (a c : Qc) (values : list Qc)
    (minIndex maxIndex : Z) :
  (0 < length values)%nat -> (minIndex < maxIndex)%Z -> 0 < a ->
  exists thresholds,
    midi_normalization values minIndex maxIndex = Ok thresholds
    /\ midi_normalization ((fun v => a * v + c) <$> values) minIndex maxIndex
       = Ok ((fun v => a * v + c) <$> thresholds)
    /\ convert_sequence ((fun v => a * v + c) <$> values)
         ((fun v => a * v + c) <$> thresholds) minIndex
       = convert_sequence values thresholds minIndex.
Proof.
  intros Hne Hidx Ha.
  destruct (py_min_max_exact values Hne)
    as (mn & mx & Hmn & Hmx & Hmn_in & Hmx_in & Hbound).
  assert (Hd : Qc_of_Z (maxIndex - minIndex) <> 0).
  { intros Hz. rewrite <- Z2Qc_inj_0 in Hz. apply Z2Qc_inj in Hz. lia. }
  destruct (py_min_max_unique ((fun v => a * v + c) <$> values)
              (a * mn + c) (a * mx + c)) as [Hmn' Hmx'].
  - by apply (list_elem_of_fmap_2 (fun v => a * v + c)).
  - by apply (list_elem_of_fmap_2 (fun v => a * v + c)).
  - intros w (v & -> & Hv)%list_elem_of_fmap.
    destruct (Hbound v Hv) as [Hlo Hhi]. split.
    + apply (proj1 (Qcplus_le_mono_r _ _ c)). by apply Qcmult_le_mono_nonneg_l;
        [apply Qclt_le_weak|].
    + apply (proj1 (Qcplus_le_mono_r _ _ c)). by apply Qcmult_le_mono_nonneg_l;
        [apply Qclt_le_weak|].
  - eexists. split;
      [exact (midi_normalization_table values minIndex maxIndex mn mx Hmx Hmn
                ltac:(lia) (exact_indices_fit minIndex maxIndex))|].
    split; [|apply convert_sequence_fmap; intros x y; by apply affine_le].
    rewrite (midi_normalization_table _ minIndex maxIndex _ _ Hmx' Hmn'
               ltac:(lia) (exact_indices_fit minIndex maxIndex)).
    f_equal. rewrite <- list_fmap_compose.
    apply Forall_fmap_ext, Forall_forall. intros i _.
    cbn [num_add num_sub num_mul num_div num_of_int exact compose].
    field. done.
Qed.

Lemma notes_invariant_under_unit_change_witness :
  (0 < length [Qc_of_Z 10; Qc_of_Z 20; Qc_of_Z 30])%nat /\ (0 < 2)%Z
  /\ 0 < Qc_of_Z 2
  /\ exists thresholds,
       midi_normalization [Qc_of_Z 10; Qc_of_Z 20; Qc_of_Z 30] 0 2 = Ok thresholds
       /\ convert_sequence
            ((fun v => Qc_of_Z 2 * v + Qc_of_Z 32)
               <$> [Qc_of_Z 10; Qc_of_Z 20; Qc_of_Z 30])
            ((fun v => Qc_of_Z 2 * v + Qc_of_Z 32) <$> thresholds) 0
          = convert_sequence [Qc_of_Z 10; Qc_of_Z 20; Qc_of_Z 30] thresholds 0.
Proof.
  assert (Ha : 0 < Qc_of_Z 2) by reflexivity.
  split; [simpl; lia|]. split; [lia|]. split; [exact Ha|].
  destruct (notes_invariant_under_unit_change (Qc_of_Z 2) (Qc_of_Z 32)
              [Qc_of_Z 10; Qc_of_Z 20; Qc_of_Z 30] 0 2)
    as (thresholds & Hnorm & _ & Hconv); [simpl; lia|lia|exact Ha|].
  exists thresholds. split; [exact Hnorm|exact Hconv].
Defined.

Local Close Scope Qc_scope.

(** ** More on reading the table *)

Lemma length_mapM_result {A B} (f : A -> result B) (l : list A) (ys : list B) :
  mapM f l = Ok ys -> length ys = length l.
Proof.
  revert ys. induction l as [|x l IH]; intros ys; simpl.
  - intros [= <-]. done.
  - destruct (f x) as [y|e]; simpl; [|done].
    destruct (mapM f l) as [k|e]; simpl; [|done].
    intros [= <-]. simpl. by rewrite (IH k).
Qed.

Lemma mapM_result_middle {A B} (f : A -> result B) (l1 l2 : list A) (x : A)
    (ys : list B) :
  mapM f (l1 ++ x :: l2) = Ok ys ->
  exists ys1 y ys2,
    ys = ys1 ++ y :: ys2 /\ length ys1 = length l1
    /\ mapM f (l1 ++ l2) = Ok (ys1 ++ ys2).
Proof.
  rewrite !mapM_result_app. simpl.
  destruct (mapM f l1) as [ys1|e] eqn:H1; simpl; [|done].
  destruct (f x) as [y|e]; simpl; [|done].
  destruct (mapM f l2) as [ys2|e]; simpl; [|done].
  intros [= <-]. exists ys1, y, ys2. split; [done|].
  split; [by eapply length_mapM_result|done].
Qed.



(** The cells a reader keeps before and after one kept cell is overwritten
    with the marker of a missing value. *)
Lemma selected_cells_overwrite (rows : list (list string)) (r c : nat)
    (row : list string) (cell : string) :
  rows !! r = Some row -> row !! c = Some cell ->
  (2 <= r)%nat -> (1 <= c < 14)%nat -> cell <> missing ->
  exists before after,
    selected_cells 1 14 rows = before ++ cell :: after
    /\ selected_cells 1 14 (<[r := <[c := missing]> row]> rows) = before ++ after.
Proof.
  intros Hr Hc Hr2 Hc14 Hcell.
  pose proof (lookup_lt_Some _ _ _ Hr) as Hrlen.
  pose proof (lookup_lt_Some _ _ _ Hc) as Hclen.
  assert (Hcells : forall x,
            cells_in_window 1 14 (take c row ++ x :: drop (S c) row)
            = filter (fun cell => cell <> missing) (drop 1 (take c row))
              ++ filter (fun cell => cell <> missing)
                   (x :: take (13 - c) (drop (S c) row))).
  { intros x. unfold cells_in_window.
    rewrite drop_app_le by (rewrite length_take; lia).
    rewrite take_app_ge by (rewrite length_drop, length_take; lia).
    rewrite filter_app. do 2 f_equal.
    rewrite length_drop, length_take.
    replace (14 - 1 - (c `min` length row - 1))%nat with (S (13 - c)) by lia.
    done. }
  exists (concat (cells_in_window 1 14 <$> take (r - 2) (drop 2 rows))
          ++ filter (fun cell => cell <> missing) (drop 1 (take c row))),
         (filter (fun cell => cell <> missing) (take (13 - c) (drop (S c) row))
          ++ concat (cells_in_window 1 14 <$> drop (S (r - 2)) (drop 2 rows))).
  unfold selected_cells. split.
  - rewrite <- (take_drop_middle (drop 2 rows) (r - 2) row) at 1
      by (rewrite lookup_drop; by replace (2 + (r - 2))%nat with r by lia).
    rewrite fmap_app, concat_app. cbn [fmap list_fmap concat].
    rewrite <- (take_drop_middle row c cell Hc) at 1.
    rewrite Hcells, filter_cons_True by done.
    by rewrite <- !app_assoc.
  - rewrite (insert_take_drop rows) by done.
    rewrite (insert_take_drop row) by done.
    rewrite drop_app_le by (rewrite length_take; lia).
    replace (drop 2 (take r rows)) with (take (r - 2) (drop 2 rows)).
    2:{ rewrite take_drop_commute. by replace (2 + (r - 2))%nat with r by lia. }
    replace (drop (S r) rows) with (drop (S (r - 2)) (drop 2 rows)).
    2:{ rewrite drop_drop. f_equal. lia. }
    rewrite fmap_app, concat_app. cbn [fmap list_fmap concat].
    rewrite Hcells, filter_cons_False by (by intros []).
    by rewrite <- !app_assoc.
Qed.

Section ReaderEdges.
Context {T : Type} `{Number T}.
Variable float_of_str : string -> result T.

Lemma read_history_result (file_name : string) (w : world) :
  read_history float_of_str file_name w =
    (match tables w !! file_name with
     | Some rows => mapM float_of_str (selected_cells 1 14 rows)
     | None => Raise OSError
     end, w).
Proof.
  unfold read_history, open_table, mbind, io_bind, io_of_result.
  destruct (tables w !! file_name) as [rows|]; [|done].
  rewrite read_rows_loop by lia. unfold selected_cells. f_equal.
  change (Z.to_nat (2 - 0)) with 2%nat. by destruct (mapM float_of_str _).
Qed.

(** X14: the readings depend on nothing but the cells at the columns 1 to
    13 of the rows after the first two: two tables that agree there are read
    to the same result, the same readings or the same exception, whatever
    their first two rows, their first column and their columns from 14 on
    hold, and however many cells these have. *)
Theorem read_history_ignores_margins (file_name : string) (w w' : world)
    (rows rows' : list (list string)) :
  tables w !! file_name = Some rows -> tables w' !! file_name = Some rows' ->
  (fun row => take 13 (drop 1 row)) <$> drop 2 rows
    = (fun row => take 13 (drop 1 row)) <$> drop 2 rows' ->
  (read_history float_of_str file_name w).1
    = (read_history float_of_str file_name w').1.
Proof.
  intros Hopen Hopen' Hsame. rewrite !read_history_result, Hopen, Hopen'.
  cbn [fst]. f_equal. unfold selected_cells.
  change (cells_in_window 1 14)
    with (filter (fun cell => cell <> missing) ∘ (fun row : list string => take 13 (drop 1 row))).
  by rewrite !list_fmap_compose, Hsame.
Qed.


(** X16: overwriting one cell that is read (row 2 or later, column 1 to
    13, not the marker) with the marker ["***"] removes exactly the reading
    of that cell: the other readings stay, in the same order. *)
Theorem missing_cell_drops_one_reading (file_name : string) (w : world)
    (rows : list (list string)) (r c : nat) (row : list string) (cell : string)
    (l : list T) :
  tables w !! file_name = Some rows ->
  rows !! r = Some row -> row !! c = Some cell ->
  (2 <= r)%nat -> (1 <= c < 14)%nat -> cell <> missing ->
  (read_history float_of_str file_name w).1 = Ok l ->
  exists i, (i < length l)%nat
    /\ (read_history float_of_str file_name
          {| tables := <[file_name := <[r := <[c := missing]> row]> rows]> (tables w);
             written := written w |}).1
       = Ok (delete i l).
Proof.
  intros Hopen Hr Hc Hr2 Hc14 Hcell. rewrite !read_history_result.
  cbn [tables fst]. rewrite Hopen, lookup_insert_eq. intros Hread.
  destruct (selected_cells_overwrite rows r c row cell Hr Hc Hr2 Hc14 Hcell)
    as (before & after & Hold & Hnew).
  rewrite Hold in Hread. rewrite Hnew.
  destruct (mapM_result_middle _ _ _ _ _ Hread) as (ys1 & y & ys2 & -> & Hlen & Hrest).
  exists (length ys1). split; [rewrite length_app; simpl; lia|].
  by rewrite delete_middle.
Qed.
End ReaderEdges.

Lemma read_history_ignores_margins_witness :
  (read_history (T:=float) float_of_digits "t.csv" sample_world).1
  = (read_history (T:=float) float_of_digits "t.csv"
       {| tables :=
            {[ "t.csv" :=
                 [ []; ["no"; "header"; "here"; "at"; "all"];
                   ["MDCCCLXXX"; "1"; "2"; "3"; "4"; "5"; "6"; "7"; "8"; "9"; "10";
                    "11"; "12"; "13"];
                   ["?"; "-1"; "***"; "3"] ] ]};
          written := ∅ |}).1.
Proof.
  apply (read_history_ignores_margins float_of_digits "t.csv" sample_world _
           sample_rows
           [ []; ["no"; "header"; "here"; "at"; "all"];
             ["MDCCCLXXX"; "1"; "2"; "3"; "4"; "5"; "6"; "7"; "8"; "9"; "10";
              "11"; "12"; "13"];
             ["?"; "-1"; "***"; "3"] ]);
    reflexivity.
Defined.


Lemma missing_cell_drops_one_reading_witness :
  exists i,
    (i < length [1; 2; 3; 4; 5; 6; 7; 8; 9; 10; 11; 12; 13; -1; 3]%float)%nat
    /\ (read_history (T:=float) float_of_digits "t.csv"
          {| tables :=
               <["t.csv" :=
                  <[2%nat :=
                     <[5%nat := missing]>
                       ["1880"; "1"; "2"; "3"; "4"; "5"; "6"; "7"; "8"; "9"; "10";
                        "11"; "12"; "13"; "14"]]> sample_rows]> (tables sample_world);
             written := written sample_world |}).1
       = Ok (delete i [1; 2; 3; 4; 5; 6; 7; 8; 9; 10; 11; 12; 13; -1; 3]%float).
Proof.
  apply (missing_cell_drops_one_reading float_of_digits "t.csv" sample_world
           sample_rows 2 5
           ["1880"; "1"; "2"; "3"; "4"; "5"; "6"; "7"; "8"; "9"; "10"; "11"; "12";
            "13"; "14"] "5");
    [reflexivity|reflexivity|reflexivity|lia|lia|discriminate|vm_compute; reflexivity].
Defined.

(** ** The pipelines *)

Lemma create_midi_result (write_track : string -> midi_file -> io unit)
    (sequence : list Z) (tempo volume : Z) (file_name : string) (duration : Z)
    (w : world) :
  create_midi write_track sequence tempo volume file_name duration w =
    write_track file_name (track_of sequence tempo volume duration) w.
Proof.
  unfold create_midi. rewrite create_midi_loop. cbn [midi_tempo midi_notes app].
  unfold track_of. do 2 f_equal.
Qed.

Section Pipelines.
Context {T : Type} `{Number T}.
Variable float_of_str : string -> result T.
Variable write_track : string -> midi_file -> io unit.




End Pipelines.

(** ** Sources that are too short *)

Lemma step_average_nothing_to_emit {T : Type} `{Number T} (s : list T) (step : Z) :
  1 <= step -> py_len s <= step -> step_average s step = Ok [].
Proof.
  intros Hstep Hlen. rewrite step_average_followed by done. f_equal.
  unfold followed_window_means.
  assert ((py_len s - 1) / step <= 0) as Hq.
  { apply Z.lt_succ_r, Z.div_lt_upper_bound; lia. }
  by replace (Z.to_nat ((py_len s - 1) / step)) with 0%nat by lia.
Qed.

Section ShortSources.
Context {T : Type} `{Number T}.
Variable float_of_str : string -> result T.
Variable write_track : string -> midi_file -> io unit.

(** X18: a pipeline needs readings to normalise: with no reading at all
    the monthly pipeline, with at most 12 readings the yearly one and with
    at most 120 readings the decade one raise the [ValueError] of [max] on
    an empty list, and write nothing. *)
Theorem pipelines_need_readings (temperature_data output_midi_file_name : string)
    (bpm volume midi_note_min midi_note_max : Z) (w : world)
    (rows : list (list string)) (history : list T) :
  tables w !! temperature_data = Some rows ->
  mapM float_of_str (selected_cells 1 14 rows) = Ok history ->
  (history = [] ->
   create_monthly_sequence float_of_str write_track temperature_data
     output_midi_file_name bpm volume midi_note_min midi_note_max w
   = (Raise ValueError, w))
  /\ ((length history <= 12)%nat ->
      create_yearly_sequence float_of_str write_track temperature_data
        output_midi_file_name bpm volume midi_note_min midi_note_max w
      = (Raise ValueError, w))
  /\ ((length history <= 120)%nat ->
      create_decade_sequence float_of_str write_track temperature_data
        output_midi_file_name bpm volume midi_note_min midi_note_max w
      = (Raise ValueError, w)).
Proof.
  intros Hopen Hread. split; [|split].
  - intros ->. unfold create_monthly_sequence.
    unfold mbind at 1, io_bind at 1. by rewrite read_history_result, Hopen, Hread.
  - intros Hlen. unfold create_yearly_sequence.
    unfold mbind at 1, io_bind at 1. rewrite read_history_result, Hopen, Hread.
    unfold mbind, io_bind, io_of_result.
    rewrite step_average_nothing_to_emit; [done|done|].
    unfold py_len. change duration_yearly with 12. lia.
  - intros Hlen. unfold create_decade_sequence.
    unfold mbind at 1, io_bind at 1. rewrite read_history_result, Hopen, Hread.
    unfold mbind, io_bind, io_of_result.
    rewrite step_average_nothing_to_emit; [done|done|].
    unfold py_len. change duration_by_decade with 120. lia.
Qed.

(** X19: on a source with at most 12 readings whose monthly normalisation
    returns, and with a library that leaves the source table as it was,
    [create_all_sequences] hands the monthly track to the MIDI library and
    nothing after it. When the library raises, that exception ends the
    call; when it returns, the yearly stage raises [ValueError]. In both
    cases the files are left as the library left them after the monthly
    track: the call has failed, and what the library wrote for the monthly
    track stays. *)
Theorem all_sequences_stop_after_monthly
    (temperature_data output_midi_file_name : string)
    (bpm volume midi_note_min midi_note_max : Z) (w : world)
    (rows : list (list string)) (history thresholds : list T) :
  tables w !! temperature_data = Some rows ->
  mapM float_of_str (selected_cells 1 14 rows) = Ok history ->
  (length history <= 12)%nat ->
  midi_normalization history midi_note_min midi_note_max = Ok thresholds ->
  tables (write_track (output_midi_file_name +:+ "_monthly.mid")
            (track_of (convert_sequence history thresholds midi_note_min)
               bpm volume 1) w).2 !! temperature_data = Some rows ->
  create_all_sequences float_of_str write_track temperature_data
    output_midi_file_name bpm volume midi_note_min midi_note_max w
  = (match (write_track (output_midi_file_name +:+ "_monthly.mid")
              (track_of (convert_sequence history thresholds midi_note_min)
                 bpm volume 1) w).1 with
     | Ok _ => Raise ValueError
     | Raise e => Raise e
     end,
     (write_track (output_midi_file_name +:+ "_monthly.mid")
        (track_of (convert_sequence history thresholds midi_note_min)
           bpm volume 1) w).2).
Proof.
  intros Hopen Hread Hlen Hnorm Hkept.
  unfold create_all_sequences.
  unfold mbind at 1, io_bind at 1.
  unfold create_monthly_sequence at 1.
  unfold mbind at 1, io_bind at 1. rewrite read_history_result, Hopen, Hread.
  unfold mbind at 1, io_bind at 1, io_of_result at 1. rewrite Hnorm.
  rewrite create_midi_result. change duration_monthly with 1.
  destruct (write_track _ _ w) as [[[]|e] w1]; [|done].
  cbn [fst snd] in *.
  unfold mbind at 1, io_bind at 1.
  unfold create_yearly_sequence.
  unfold mbind at 1, io_bind at 1. rewrite read_history_result, Hkept, Hread.
  unfold mbind, io_bind, io_of_result.
  rewrite step_average_nothing_to_emit; [reflexivity|done|].
  unfold py_len. change duration_yearly with 12. lia.
Qed.
End ShortSources.

Lemma pipelines_need_readings_witness :
  tables short_world !! "t.csv" = Some short_rows
  /\ create_yearly_sequence (T:=float) float_of_digits store_track "t.csv"
       "just_warming_up" 160 112 24 96 short_world
     = (Raise ValueError, short_world).
Proof.
  split; [reflexivity|].
  refine (proj1 (proj2 (pipelines_need_readings float_of_digits store_track "t.csv"
            "just_warming_up" 160 112 24 96 short_world short_rows
            [10; 20; 30]%float _ _)) _);
    [reflexivity|vm_compute; reflexivity|simpl; lia].
Defined.

Lemma all_sequences_stop_after_monthly_witness :
  (length [10; 20; 30]%float <= 12)%nat
  /\ midi_normalization (T:=float) [10; 20; 30]%float 0 2 = Ok [10; 20]%float
  /\ create_all_sequences (T:=float) float_of_digits store_track "t.csv"
       "just_warming_up" 160 112 0 2 short_world
     = (Raise ValueError,
        {| tables := tables short_world;
           written := <["just_warming_up" +:+ "_monthly.mid" :=
                          track_of [0; 1] 160 112 1]> (written short_world) |}).
Proof.
  split; [simpl; lia|]. split; [vm_compute; reflexivity|].
  refine (@all_sequences_stop_after_monthly float binary64 float_of_digits
            store_track "t.csv" "just_warming_up" 160 112 0 2 short_world short_rows
            [10; 20; 30]%float [10; 20]%float _ _ _ _ _);
    [reflexivity|vm_compute; reflexivity|simpl; lia|vm_compute; reflexivity
    |reflexivity].
Defined.

(** ** Readings that are not a number, on doubles *)

Lemma nan_le (t : float) :
  PrimFloat.leb nan t = false /\ PrimFloat.leb t nan = false.
Proof.
  rewrite !leb_spec. unfold SFleb, SFcompare.
  replace (Prim2SF nan) with S754_nan by reflexivity.
  split; [reflexivity|by destruct (Prim2SF t)].
Qed.

Lemma nan_lt (t : float) :
  PrimFloat.ltb nan t = false /\ PrimFloat.ltb t nan = false.
Proof.
  rewrite !ltb_spec. unfold SFltb, SFcompare.
  replace (Prim2SF nan) with S754_nan by reflexivity.
  split; [reflexivity|by destruct (Prim2SF t)].
Qed.

Lemma nan_add (t : float) : PrimFloat.add nan t = nan.
Proof.
  rewrite <- (SF2Prim_Prim2SF (PrimFloat.add nan t)), add_spec.
  replace (Prim2SF nan) with S754_nan by reflexivity. reflexivity.
Qed.

Lemma fold_max_nan (rest : list float) :
  fold_left (fun m y => if num_lt m y then y else m) rest nan = nan.
Proof.
  induction rest as [|y rest IH]; [done|]. cbn [fold_left num_lt binary64].
  by rewrite (proj1 (nan_lt y)).
Qed.

Lemma fold_min_nan (rest : list float) :
  fold_left (fun m y => if num_lt y m then y else m) rest nan = nan.
Proof.
  induction rest as [|y rest IH]; [done|]. cbn [fold_left num_lt binary64].
  by rewrite (proj2 (nan_lt y)).
Qed.

Lemma fold_max_skips_nan (before after : list float) (x : float) :
  fold_left (fun m y => if num_lt m y then y else m) (before ++ nan :: after) x
  = fold_left (fun m y => if num_lt m y then y else m) (before ++ after) x.
Proof.
  rewrite !fold_left_app. cbn [fold_left num_lt binary64].
  by rewrite (proj2 (nan_lt _)).
Qed.

Lemma fold_min_skips_nan (before after : list float) (x : float) :
  fold_left (fun m y => if num_lt y m then y else m) (before ++ nan :: after) x
  = fold_left (fun m y => if num_lt y m then y else m) (before ++ after) x.
Proof.
  rewrite !fold_left_app. cbn [fold_left num_lt binary64].
  by rewrite (proj1 (nan_lt _)).
Qed.

Lemma nan_gets_no_note (thresholds : list float) (lo : Z) :
  first_threshold_note nan thresholds lo = None.
Proof.
  unfold first_threshold_note. apply fmap_None, list_find_None, Forall_forall.
  intros t _. cbn [num_le binary64]. by rewrite (proj1 (nan_le t)).
Qed.

(** X20: on doubles, a reading that is NaN and not the first one is
    passed over: the thresholds are those of the list without it, it gets
    no index itself, and the other readings keep theirs. *)
Theorem nan_reading_is_passed_over (x : float) (before after : list float)
    (lo hi : Z) :
  midi_normalization (x :: before ++ nan :: after) lo hi
    = midi_normalization (x :: before ++ after) lo hi
  /\ forall thresholds,
       convert_sequence (x :: before ++ nan :: after) thresholds lo
       = convert_sequence (x :: before ++ after) thresholds lo.
Proof.
  split.
  - unfold midi_normalization. cbn [py_max py_min].
    by rewrite fold_max_skips_nan, fold_min_skips_nan.
  - intros thresholds. rewrite !convert_sequence_omap.
    change (x :: before ++ nan :: after) with ((x :: before) ++ nan :: after).
    change (x :: before ++ after) with ((x :: before) ++ after).
    rewrite !omap_app. f_equal. csimpl.
    by rewrite nan_gets_no_note.
Qed.

(** X21: on doubles, a NaN as the first reading silences the whole
    pipeline: [max] and [min] keep it, every threshold is NaN, and no
    reading gets an index. *)
Theorem leading_nan_gives_no_notes (rest values thresholds : list float)
    (lo hi : Z) :
  midi_normalization (nan :: rest) lo hi = Ok thresholds ->
  Forall (fun t => t = nan) thresholds
  /\ convert_sequence values thresholds lo = [].
Proof.
  intros Hnorm.
  assert (Hall : Forall (fun t => t = nan) thresholds).
  { apply midi_normalization_returns in Hnorm as (mn & mx & _ & Hmn & ->).
    cbn [py_min] in Hmn. rewrite fold_min_nan in Hmn.
    assert (mn = nan) as -> by congruence.
    apply Forall_fmap, Forall_forall. intros i _. apply nan_add. }
  split; [done|]. rewrite convert_sequence_omap.
  induction values as [|v values IH]; [done|]. csimpl.
  replace (first_threshold_note v thresholds lo) with (@None Z); [done|].
  symmetry. unfold first_threshold_note.
  apply fmap_None, list_find_None. eapply Forall_impl; [apply Hall|].
  intros t -> Hle. cbn [num_le binary64] in Hle.
  by rewrite (proj2 (nan_le v)) in Hle.
Qed.

Lemma leading_nan_gives_no_notes_witness :
  midi_normalization [nan; 1; 2]%float 0 2 = Ok [nan; nan]%float
  /\ convert_sequence [nan; 1; 2]%float [nan; nan]%float 0 = [].
Proof.
  assert (Hnorm : midi_normalization [nan; 1; 2]%float 0 2 = Ok [nan; nan]%float)
    by (vm_compute; reflexivity).
  split; [exact Hnorm|].
  exact (proj2 (leading_nan_gives_no_notes [1; 2]%float [nan; 1; 2]%float
                  [nan; nan]%float 0 2 Hnorm)).
Defined.

(** ** Which values get no index, in exact arithmetic *)

Local Open Scope Qc_scope.

(** X22: in exact arithmetic, for a non-empty list and
    [maxIndex > minIndex], a value gets no index exactly when it is above
    the last threshold, [min + (maxIndex - 1) * increment]; with
    [minIndex = 0] that is every value above [max - increment], not the
    maximum alone. *)
Theorem dropped_above_last_threshold (values : list Qc) (minIndex maxIndex : Z)
    (v : Qc) :
  (0 < length values)%nat -> (minIndex < maxIndex)%Z ->
  exists lo_v hi_v increment thresholds,
    py_min values = Ok lo_v /\ py_max values = Ok hi_v
    /\ Qc_of_Z (maxIndex - minIndex) * increment = hi_v - lo_v
    /\ midi_normalization values minIndex maxIndex = Ok thresholds
    /\ (convert_sequence [v] thresholds minIndex = []
        <-> lo_v + Qc_of_Z (maxIndex - 1) * increment < v).
Proof.
  intros Hne Hidx.
  destruct (exact_normalization values minIndex maxIndex Hne Hidx)
    as (mn & mx & inc & Hmn & Hmx & _ & _ & _ & Hinc & Hmul & Hnorm).
  eexists mn, mx, inc, _. do 3 (split; [done|]). split; [exact Hnorm|].
  set (thresholds := (fun i => num_add mn (num_mul (num_of_int i) inc))
                     <$> py_range minIndex maxIndex).
  assert (Hlast : thresholds !! Z.to_nat (maxIndex - minIndex - 1)
                  = Some (mn + Qc_of_Z (maxIndex - 1) * inc)).
  { apply exact_table_lookup. split; [|lia]. do 3 f_equal. lia. }
  rewrite convert_sequence_single.
  pose proof (first_threshold_note_spec v thresholds minIndex) as Hspec.
  destruct (first_threshold_note v thresholds minIndex) as [n|]; split.
  - done.
  - intros Hlt. destruct Hspec as (p & t & _ & Hp & Hle & _).
    apply exact_table_lookup in Hp as [-> Hp]. apply exact_le in Hle.
    exfalso. eapply Qclt_not_le; [exact Hlt|].
    eapply Qcle_trans; [exact Hle|].
    apply Qcplus_le_mono_l, Qcmult_le_mono_nonneg_r; [done|].
    apply (proj1 (Z2Qc_inj_le _ _)). lia.
  - intros _. apply Qcnot_le_lt. intros Hle.
    assert (num_le v (mn + Qc_of_Z (maxIndex - 1) * inc) = true) as Htrue
      by by apply exact_le.
    rewrite (Hspec _ (list_elem_of_lookup_2 _ _ _ Hlast)) in Htrue. done.
  - done.
Qed.

Lemma dropped_above_last_threshold_witness :
  (0 < length [Qc_of_Z 0; Qc_of_Z 9; Qc_of_Z 10])%nat /\ (0 < 2)%Z
  /\ exists lo_v hi_v increment thresholds,
       py_min [Qc_of_Z 0; Qc_of_Z 9; Qc_of_Z 10] = Ok lo_v
       /\ py_max [Qc_of_Z 0; Qc_of_Z 9; Qc_of_Z 10] = Ok hi_v
       /\ Qc_of_Z (2 - 0) * increment = hi_v - lo_v
       /\ midi_normalization [Qc_of_Z 0; Qc_of_Z 9; Qc_of_Z 10] 0 2 = Ok thresholds
       /\ (convert_sequence [Qc_of_Z 9] thresholds 0 = []
           <-> lo_v + Qc_of_Z (2 - 1) * increment < Qc_of_Z 9).
Proof.
  split; [simpl; lia|]. split; [lia|].
  apply (dropped_above_last_threshold [Qc_of_Z 0; Qc_of_Z 9; Qc_of_Z 10] 0 2
           (Qc_of_Z 9)); [simpl; lia|lia].
Defined.

Local Close Scope Qc_scope.
